(** * Resolution engine of the optimistic oracle: state machine, orchestrator
      and chain indexer.

    Shallow embedding of
    - [state-machine.service.ts]  (module [StateMachine]),
    - [resolution.service.ts]     (module [Resolution]),
    - [indexer.service.ts]        (module [Indexer]),
    with [async]/[await] code run sequentially in a state-and-error monad
    that also records the requests a call sends out. *)

From stdpp Require Import gmap strings list fin_maps pretty.
From Stdlib Require Import ZArith Ascii.

Open Scope string_scope.

(** ** Shared data *)

(** [enum ResolutionState] and the string value of each member. *)
Inductive ResolutionState :=
| CREATED | DETECTING | EVIDENCE_GATHERING | PROPOSING | LIVENESS
| MONITORING | DISPUTED | ARBITRATION | RESOLVED | SETTLED.

#[global] Instance ResolutionState_eq_dec : EqDecision ResolutionState.
Proof. solve_decision. Defined.

Definition state_value (s : ResolutionState) : string :=
  match s with
  | CREATED => "created"
  | DETECTING => "detecting"
  | EVIDENCE_GATHERING => "evidence_gathering"
  | PROPOSING => "proposing"
  | LIVENESS => "liveness"
  | MONITORING => "monitoring"
  | DISPUTED => "disputed"
  | ARBITRATION => "arbitration"
  | RESOLVED => "resolved"
  | SETTLED => "settled"
  end.

Definition all_states : list ResolutionState :=
  [CREATED; DETECTING; EVIDENCE_GATHERING; PROPOSING; LIVENESS;
   MONITORING; DISPUTED; ARBITRATION; RESOLVED; SETTLED].

(** [interface ResolutionContext].  At run time [currentState] holds whatever
    string the event record carries, so it is a string here too. *)
Record ResolutionContext := mkContext {
  ctx_eventId : string;
  ctx_proposalId : option string;
  currentState : string;
  metadata : gmap string string;
  timestamp : Z;
}.

Definition set_currentState (s : string) (c : ResolutionContext) : ResolutionContext :=
  {| ctx_eventId := ctx_eventId c; ctx_proposalId := ctx_proposalId c;
     currentState := s; metadata := metadata c; timestamp := timestamp c |}.

(** A JavaScript numeric value: a [number] or a [bigint].  The contract
    library hands out the [uint256] arguments of a log as it decodes them. *)
Inductive Numeric :=
| Number (z : Z)
| BigInt (z : Z).

(** Payload of an indexed [EventCreated] log, as posted to the event manager. *)
Record EventLog := mkEventLog {
  log_eventId : string;
  log_description : string;
  log_resolutionTime : Numeric;
  log_blockNumber : Z;
  log_transactionHash : string;
}.

(** ** Errors, requests and the monad *)

(** The exceptions the services throw.  [message] gives the text of the
    JavaScript [Error]; [PeerError] is a rejection coming from an HTTP peer or
    from the chain. *)
Inductive error :=
| InvalidTransition (current target : string)
| ConditionNotMet (current target : string)
| PreconditionNotMet
| EventNotResolved
| ContractNotLoaded (msg : string)
| PeerError (msg : string).

Definition message (e : error) : string :=
  match e with
  | InvalidTransition c t => "Invalid transition from " +:+ c +:+ " to " +:+ t
  | ConditionNotMet c t => "Transition condition not met: " +:+ c +:+ " -> " +:+ t
  | PreconditionNotMet => "Finalization conditions not met"
  | EventNotResolved => "Event not in resolved state"
  | ContractNotLoaded msg => msg
  | PeerError msg => msg
  end.

Inductive Result (A : Type) :=
| Ok (a : A)
| Err (e : error).
Arguments Ok {A} a.
Arguments Err {A} e.

(** What a peer (HTTP service, chain RPC) answers to one request. *)
Inductive Response (A : Type) :=
| Reply (a : A)
| Reject (msg : string).
Arguments Reply {A} a.
Arguments Reject {A} msg.

(** Everything a call sends out, in order: log lines, HTTP requests, chain
    calls, cache writes and queue operations.  A request is recorded when it
    is sent, whether or not the peer then answers. *)
Inductive Effect :=
| LogInfo (msg : string)
| LogError (msg : string)
| GetEvent (eventId : string)
| GetProposal (proposalId : string)
| GetDisputes (proposalId : string)
| PatchEvent (eventId status : string) (updatedAt : Z)
| PostDistribute (eventId : string)
| PostNotifyArbitrators (proposalId disputeData : string)
| PostBlockchainEvent (l : EventLog)
| TxFinalizeProposal (proposalId : string)
| TxSettleEvent (eventId : string)
| QueryEventCreated (fromBlock toBlock : Z)
| CacheSet (key : string)
| CacheDelete (key : string)
| QueueAdd (queue name : string) (payload : gmap string string) (delay : Z)
| JobRemove (queue : string) (jobId : nat)
| TxSubmitProposal (proposalId eventId : string).

Record Outcome (S A : Type) := mkOutcome {
  result : Result A;
  final : S;
  effects : list Effect;
}.
Arguments mkOutcome {S A}.
Arguments result {S A}.
Arguments final {S A}.
Arguments effects {S A}.

(** A computation over a mutable state [S] that returns or throws. *)
Definition M (S A : Type) : Type := S → Outcome S A.

Definition ret {S A} (a : A) : M S A := λ s, mkOutcome (Ok a) s [].

Definition bind {S A B} (m : M S A) (k : A → M S B) : M S B := λ s,
  match m s with
  | mkOutcome (Ok a) s1 eff1 =>
      match k a s1 with
      | mkOutcome r s2 eff2 => mkOutcome r s2 (eff1 ++ eff2)
      end
  | mkOutcome (Err e) s1 eff1 => mkOutcome (Err e) s1 eff1
  end.

Notation "'let!' x ':=' m 'in' k" := (bind m (λ x, k))
  (at level 10, x name, m at level 100, k at level 200).
Notation "m '>>' k" := (bind m (λ _, k))
  (at level 90, right associativity).

Definition throw {S A} (e : error) : M S A := λ s, mkOutcome (Err e) s [].

(** [try { m } catch (error) { h error }] *)
Definition try_catch {S A} (m : M S A) (h : error → M S A) : M S A := λ s,
  match m s with
  | mkOutcome (Ok a) s1 eff1 => mkOutcome (Ok a) s1 eff1
  | mkOutcome (Err e) s1 eff1 =>
      match h e s1 with
      | mkOutcome r s2 eff2 => mkOutcome r s2 (eff1 ++ eff2)
      end
  end.

Definition gets {S A} (f : S → A) : M S A := λ s, mkOutcome (Ok (f s)) s [].
Definition modify {S} (f : S → S) : M S unit := λ s, mkOutcome (Ok tt) (f s) [].
Definition emit {S} (e : Effect) : M S unit := λ s, mkOutcome (Ok tt) s [e].

(** [await] on a peer's answer: a rejection is thrown. *)
Definition await {S A} (r : Response A) : M S A :=
  match r with
  | Reply a => ret a
  | Reject msg => throw (PeerError msg)
  end.

Definition logger_log {S} (msg : string) : M S unit := emit (LogInfo msg).
Definition logger_error {S} (msg : string) : M S unit := emit (LogError msg).

(** [for (const x of xs) { await body(x) }] *)
Fixpoint for_of {S A} (xs : list A) (body : A → M S unit) : M S unit :=
  match xs with
  | [] => ret tt
  | x :: xs' => body x >> for_of xs' body
  end.

(** ** state-machine.service.ts *)

Module StateMachine.

Section Service.
(** [W] is the rest of the program state an [action] hook may touch. *)
Context {W : Type}.

Record StateTransition := mkTransition {
  from : list string;
  to : string;
  condition : option (ResolutionContext → bool);
  action : option (M (ResolutionContext * W) unit);
}.

Definition edge (f t : string) : StateTransition :=
  {| from := [f]; to := t; condition := None; action := None |}.

(** [private transitions: Map<string, StateTransition[]>] *)
Definition transitions : gmap string (list StateTransition) :=
  list_to_map [
    ("created", [edge "created" "detecting"; edge "created" "evidence_gathering"]);
    ("detecting", [edge "detecting" "proposing"; edge "detecting" "evidence_gathering"]);
    ("proposing", [edge "proposing" "liveness"]);
    ("liveness", [edge "liveness" "disputed"; edge "liveness" "monitoring";
                  edge "liveness" "resolved"]);
    ("disputed", [edge "disputed" "arbitration"; edge "disputed" "liveness"]);
    ("arbitration", [edge "arbitration" "resolved"; edge "arbitration" "liveness"]);
    ("resolved", [edge "resolved" "settled"])
  ].

(** [t.from.includes(currentState)] *)
Definition from_includes (current : string) (t : StateTransition) : bool :=
  bool_decide (current ∈ from t).

(** [this.transitions.get(targetState) || []] *)
Definition validTransitions (table : gmap string (list StateTransition))
    (targetState : string) : list StateTransition :=
  default [] (table !! targetState).

(** [transition.condition && !transition.condition(context)] *)
Definition condition_fails (t : StateTransition) (context : ResolutionContext) : bool :=
  match condition t with
  | Some c => negb (c context)
  | None => false
  end.

Definition run_action (t : StateTransition) : M (ResolutionContext * W) unit :=
  match action t with
  | Some a => a
  | None => ret tt
  end.

(** [async transition(context, targetState)], over the table it is given.
    The context object is the first component of the state. *)
Definition transition_in (table : gmap string (list StateTransition))
    (targetState : string) : M (ResolutionContext * W) unit :=
  let! context := gets fst in
  let current := currentState context in
  match find (from_includes current) (validTransitions table targetState) with
  | None => throw (InvalidTransition current targetState)
  | Some t =>
      if condition_fails t context
      then throw (ConditionNotMet current targetState)
      else
        run_action t >>
        modify (λ s, (set_currentState targetState (fst s), snd s)) >>
        logger_log ("State transition: " +:+ current +:+ " -> " +:+ targetState)
  end.

Definition transition : string → M (ResolutionContext * W) unit :=
  transition_in transitions.

(** [canTransition(currentState, targetState)] *)
Definition canTransition (current targetState : string) : bool :=
  existsb (from_includes current) (validTransitions transitions targetState).

End Service.

Arguments StateTransition : clear implicits.

(** The graph of section 4.3 of the specification, as pairs of states. *)
Definition table_edge (f t : ResolutionState) : bool :=
  match f, t with
  | CREATED, DETECTING | CREATED, EVIDENCE_GATHERING
  | DETECTING, PROPOSING | DETECTING, EVIDENCE_GATHERING
  | PROPOSING, LIVENESS
  | LIVENESS, DISPUTED | LIVENESS, MONITORING | LIVENESS, RESOLVED
  | DISPUTED, ARBITRATION | DISPUTED, LIVENESS
  | ARBITRATION, RESOLVED | ARBITRATION, LIVENESS
  | RESOLVED, SETTLED => true
  | _, _ => false
  end.

(** The states that are keys of [transitions]. *)
Definition has_outgoing (s : ResolutionState) : bool :=
  match s with
  | EVIDENCE_GATHERING | MONITORING | SETTLED => false
  | _ => true
  end.

End StateMachine.

(** ** Collaborators of the orchestrator *)

(** A JSON document of a peer, reduced to the fields the engine reads.  The
    services type such values [any]: an event record and a proposal record
    are both read through these fields. *)
Record Doc := mkDoc {
  doc_eventId : string;
  doc_proposalId : string;
  status : string;
  livenessExpiry : Z;
  doc_metadata : option (gmap string string);
}.

Definition set_status (s : string) (d : Doc) : Doc :=
  {| doc_eventId := doc_eventId d; doc_proposalId := doc_proposalId d;
     status := s; livenessExpiry := livenessExpiry d;
     doc_metadata := doc_metadata d |}.

Module Cache.

(** Modelled from the spec: cache.service.ts is missing from the sources.
    Section 4.1 gives [get], [set] with a time to live in seconds, [delete]
    and [keys] over a glob pattern.  A stored value is the JSON text of a
    document, identified here with the document it parses to. *)
Record Entry := mkEntry {
  value : Doc;
  expiresAt : Z;
}.

(** Modelled from the spec: an entry is served until its time to live is
    over. *)
Definition live (now : Z) (e : Entry) : bool := (now <? expiresAt e)%Z.

(** Modelled from the spec: [get(key)] of section 4.1, on the entries the
    cache holds at the time of the call.  That it may have dropped entries
    since they were set is [evicted], among the vocabulary below. *)
Definition get (now : Z) (key : string) (c : gmap string Entry) : option Doc :=
  match c !! key with
  | Some e => if live now e then Some (value e) else None
  | None => None
  end.

(** Modelled from the spec: [set(key, value, ttlSeconds)] of section 4.1. *)
Definition set (now : Z) (key : string) (v : Doc) (ttlSeconds : Z)
    (c : gmap string Entry) : gmap string Entry :=
  <[key := {| value := v; expiresAt := (now + ttlSeconds * 1000)%Z |}]> c.

(** Modelled from the spec: [delete(key)] of section 4.1. *)
Definition del (key : string) (c : gmap string Entry) : gmap string Entry :=
  delete key c.

(** Modelled from the spec: glob-style patterns of section 4.1, with [*]
    standing for any run of characters. *)
Fixpoint glob (pattern s : string) {struct pattern} : bool :=
  match pattern with
  | EmptyString => bool_decide (s = EmptyString)
  | String c p' =>
      if Ascii.eqb c "*"%char then
        (fix star (s : string) : bool :=
           glob p' s ||
           match s with
           | EmptyString => false
           | String _ s' => star s'
           end) s
      else
        match s with
        | EmptyString => false
        | String d s' => Ascii.eqb c d && glob p' s'
        end
  end.

(** Modelled from the spec: [keys(pattern)] of section 4.1, over the entries
    still served. *)
Definition keys (now : Z) (pattern : string) (c : gmap string Entry) : list string :=
  (filter (λ kv, glob pattern kv.1 = true ∧ live now kv.2 = true) (map_to_list c)).*1.

End Cache.

Module Bull.

(** Modelled from the spec: the job queue is the Bull library, outside the
    sources.  Section 4.4: a job is in one of five states, [getJobs] scans by
    state, and [remove] takes a job out only while it is delayed or
    waiting. *)
Inductive JobState := delayed | waiting | active | completed | failed.

#[global] Instance JobState_eq_dec : EqDecision JobState.
Proof. solve_decision. Defined.

Record JobOptions := mkOptions {
  delay : Z;
  attempts : nat;
  backoff_type : string;
  backoff_delay : Z;
}.

Record Job := mkJob {
  job_id : nat;
  job_name : string;
  data : gmap string string;
  opts : JobOptions;
  job_state : JobState;
}.

Record Queue := mkQueue {
  jobs : list Job;
  next_id : nat;
}.

(** Modelled from the spec: [enqueue] of section 4.4; a job with a positive
    delay starts delayed, any other starts waiting. *)
Definition add (name : string) (payload : gmap string string) (o : JobOptions)
    (q : Queue) : Queue :=
  {| jobs := jobs q ++
       [{| job_id := next_id q; job_name := name; data := payload; opts := o;
           job_state := if (0 <? delay o)%Z then delayed else waiting |}];
     next_id := S (next_id q) |}.

(** Modelled from the spec: [scan(queue, states)] of section 4.4. *)
Definition getJobs (types : list JobState) (q : Queue) : list Job :=
  filter (λ j, job_state j ∈ types) (jobs q).

Definition removable (j : Job) : Prop := job_state j ∈ [delayed; waiting].

(** Modelled from the spec: [remove(job)] of section 4.4; the job of that
    id leaves the queue if it is still delayed or waiting. *)
Definition remove (j : Job) (q : Queue) : Queue :=
  {| jobs := filter (λ j', ¬ (job_id j' = job_id j ∧ removable j')) (jobs q);
     next_id := next_id q |}.

End Bull.

(** ** resolution.service.ts *)

Module Resolution.

(** The mutable surroundings of the orchestrator: the wall clock read by
    [Date.now()], the cache, the records held by the event-manager peer and
    the two job queues. *)
Record World := mkWorld {
  clock : Z;
  cache : gmap string Cache.Entry;
  eventManager : gmap string Doc;
  livenessQueue : Bull.Queue;
  settlementQueue : Bull.Queue;
}.

Definition set_cache (f : gmap string Cache.Entry → gmap string Cache.Entry)
    (w : World) : World :=
  {| clock := clock w; cache := f (cache w); eventManager := eventManager w;
     livenessQueue := livenessQueue w; settlementQueue := settlementQueue w |}.

Definition set_eventManager (f : gmap string Doc → gmap string Doc)
    (w : World) : World :=
  {| clock := clock w; cache := cache w; eventManager := f (eventManager w);
     livenessQueue := livenessQueue w; settlementQueue := settlementQueue w |}.

Definition set_livenessQueue (f : Bull.Queue → Bull.Queue) (w : World) : World :=
  {| clock := clock w; cache := cache w; eventManager := eventManager w;
     livenessQueue := f (livenessQueue w); settlementQueue := settlementQueue w |}.

Definition set_settlementQueue (f : Bull.Queue → Bull.Queue) (w : World) : World :=
  {| clock := clock w; cache := cache w; eventManager := eventManager w;
     livenessQueue := livenessQueue w; settlementQueue := f (settlementQueue w) |}.

(** The passing of time between two calls. *)
Definition set_clock (now : Z) (w : World) : World :=
  {| clock := now; cache := cache w; eventManager := eventManager w;
     livenessQueue := livenessQueue w; settlementQueue := settlementQueue w |}.

(** How the other peers answer: the proposal and dispute services, the
    event manager's PATCH, the two best-effort POSTs, and the two contracts of
    the chain adapter ([None] when [contracts.get] finds nothing). *)
Record Peers := mkPeers {
  getProposal : string → Response Doc;
  getDisputes : string → Response (list string);
  patchEvent : string → string → Response unit;
  postDistribute : string → Response unit;
  postNotifyArbitrators : string → string → Response unit;
  proposalManager : option (string → Response string);
  oracleRegistry : option (string → Response string);
}.

(** Run a computation that mutates a local object [c] next to the world and
    hand the object back when it returns. *)
Definition with_object {C W} (c : C) (m : M (C * W) unit) : M W C := λ w,
  match m (c, w) with
  | mkOutcome (Ok _) (c', w') eff => mkOutcome (Ok c') w' eff
  | mkOutcome (Err e) (_, w') eff => mkOutcome (Err e) w' eff
  end.

Section Service.
Context (P : Peers).

(** *** CacheService, on the world's cache *)

Definition cacheService_get (key : string) : M World (option Doc) :=
  gets (λ w, Cache.get (clock w) key (cache w)).

Definition cacheService_set (key : string) (v : Doc) (ttl : Z) : M World unit :=
  emit (CacheSet key) >>
  modify (λ w, set_cache (Cache.set (clock w) key v ttl) w).

Definition cacheService_delete (key : string) : M World unit :=
  emit (CacheDelete key) >>
  modify (set_cache (Cache.del key)).

Definition cacheService_keys (pattern : string) : M World (list string) :=
  gets (λ w, Cache.keys (clock w) pattern (cache w)).

(** *** BlockchainService: the two calls the orchestrator makes *)

Definition blockchain_finalizeProposal (proposalId : string) : M World string :=
  try_catch
    (match proposalManager P with
     | None => throw (ContractNotLoaded "Proposal contract not loaded")
     | Some contract =>
         emit (TxFinalizeProposal proposalId) >>
         let! hash := await (contract proposalId) in
         logger_log ("Proposal finalized: " +:+ proposalId +:+ ", tx: " +:+ hash) >>
         ret hash
     end)
    (λ error,
       logger_error ("Failed to finalize proposal: " +:+ message error) >>
       throw error).

Definition blockchain_settleEvent (eventId : string) : M World string :=
  try_catch
    (match oracleRegistry P with
     | None => throw (ContractNotLoaded "Oracle registry not loaded")
     | Some contract =>
         emit (TxSettleEvent eventId) >>
         let! hash := await (contract eventId) in
         logger_log ("Event settled: " +:+ eventId +:+ ", tx: " +:+ hash) >>
         ret hash
     end)
    (λ error,
       logger_error ("Failed to settle event: " +:+ message error) >>
       throw error).

(** *** Private helpers of ResolutionService *)

Definition fetchEventData (eventId : string) : M World Doc :=
  let cacheKey := "event:" +:+ eventId in
  let! cached := cacheService_get cacheKey in
  match cached with
  | Some doc => ret doc
  | None =>
      emit (GetEvent eventId) >>
      let! records := gets eventManager in
      let! data := await (match records !! eventId with
                          | Some d => Reply d
                          | None => Reject "Request failed with status code 404"
                          end) in
      cacheService_set cacheKey data 300 >>
      ret data
  end.

Definition fetchProposalData (proposalId : string) : M World Doc :=
  let cacheKey := "proposal:" +:+ proposalId in
  let! cached := cacheService_get cacheKey in
  match cached with
  | Some doc => ret doc
  | None =>
      emit (GetProposal proposalId) >>
      let! data := await (getProposal P proposalId) in
      cacheService_set cacheKey data 300 >>
      ret data
  end.

Definition fetchProposalDisputes (proposalId : string) : M World (list string) :=
  emit (GetDisputes proposalId) >>
  await (getDisputes P proposalId).

Definition updateEventState (eventId state : string) : M World unit :=
  let! now := gets clock in
  emit (PatchEvent eventId state now) >>
  await (patchEvent P eventId state) >>
  modify (set_eventManager (alter (set_status state) eventId)) >>
  cacheService_delete ("event:" +:+ eventId) >>
  logger_log ("Updated event " +:+ eventId +:+ " state to: " +:+ state).

Definition scheduleLivenessMonitoring (proposalId : string) (expiry : Z)
    : M World unit :=
  let! now := gets clock in
  let delay := (expiry - now)%Z in
  let payload : gmap string string := {["proposalId" := proposalId]} in
  emit (QueueAdd "liveness-monitoring" "check-liveness" payload (Z.max 0 delay)) >>
  modify (set_livenessQueue
            (Bull.add "check-liveness" payload
               {| Bull.delay := Z.max 0 delay; Bull.attempts := 3;
                  Bull.backoff_type := "exponential";
                  Bull.backoff_delay := 5000 |})) >>
  logger_log ("Scheduled liveness monitoring for proposal: " +:+ proposalId).

Definition pauseLivenessMonitoring (proposalId : string) : M World unit :=
  let! jobs := gets (λ w, Bull.getJobs [Bull.delayed; Bull.waiting] (livenessQueue w)) in
  for_of jobs (λ job,
    if bool_decide (Bull.data job !! "proposalId" = Some proposalId)
    then emit (JobRemove "liveness-monitoring" (Bull.job_id job)) >>
         modify (set_livenessQueue (Bull.remove job))
    else ret tt) >>
  logger_log ("Paused liveness monitoring for proposal: " +:+ proposalId).

Definition scheduleSettlement (eventId : string) : M World unit :=
  let payload : gmap string string := {["eventId" := eventId]} in
  emit (QueueAdd "settlement-processing" "settle-event" payload 60000) >>
  modify (set_settlementQueue
            (Bull.add "settle-event" payload
               {| Bull.delay := 60000; Bull.attempts := 5;
                  Bull.backoff_type := "exponential";
                  Bull.backoff_delay := 10000 |})) >>
  logger_log ("Scheduled settlement for event: " +:+ eventId).

Definition checkFinalizationConditions (proposal : Doc) : M World bool :=
  if negb (String.eqb (status proposal) "liveness") then ret false
  else
    let! now := gets clock in
    if (now <? livenessExpiry proposal)%Z then ret false
    else
      let! disputes := fetchProposalDisputes (doc_proposalId proposal) in
      ret (length disputes =? 0)%nat.

Definition distributeRewards (eventId : string) : M World unit :=
  try_catch
    (emit (PostDistribute eventId) >>
     await (postDistribute P eventId) >>
     logger_log ("Rewards distributed for event: " +:+ eventId))
    (λ error, logger_error ("Failed to distribute rewards: " +:+ message error)).

Definition notifyArbitrators (proposalId disputeData : string) : M World unit :=
  try_catch
    (emit (PostNotifyArbitrators proposalId disputeData) >>
     await (postNotifyArbitrators P proposalId disputeData))
    (λ error, logger_error ("Failed to notify arbitrators: " +:+ message error)).

Definition cleanupEventData (eventId : string) : M World unit :=
  cacheService_delete ("event:" +:+ eventId) >>
  let! proposalIds := cacheService_keys ("proposal:*:" +:+ eventId) in
  for_of proposalIds cacheService_delete >>
  logger_log ("Cleaned up data for event: " +:+ eventId).

(** *** Entry points *)

Definition processEvent (eventId : string) : M World ResolutionContext :=
  try_catch
    (logger_log ("Processing event resolution: " +:+ eventId) >>
     let! event := fetchEventData eventId in
     let! now := gets clock in
     let context :=
       {| ctx_eventId := eventId; ctx_proposalId := None;
          currentState := status event;
          metadata := default ∅ (doc_metadata event);
          timestamp := now |} in
     with_object context (StateMachine.transition (status event)))
    (λ error,
       logger_error ("Failed to process event " +:+ eventId +:+ ": " +:+ message error) >>
       throw error).

Definition handleDisputeDetected (proposalId disputeData : string) : M World unit :=
  try_catch
    (logger_log ("Handling dispute for proposal: " +:+ proposalId) >>
     let! proposal := fetchProposalData proposalId in
     updateEventState (doc_eventId proposal) (state_value DISPUTED) >>
     notifyArbitrators proposalId disputeData >>
     pauseLivenessMonitoring proposalId)
    (λ error,
       logger_error ("Failed to handle dispute: " +:+ message error) >>
       throw error).

Definition finalizeProposal (proposalId : string) : M World unit :=
  try_catch
    (logger_log ("Finalizing proposal: " +:+ proposalId) >>
     let! proposal := fetchProposalData proposalId in
     let! canFinalize := checkFinalizationConditions proposal in
     if negb canFinalize then throw PreconditionNotMet
     else
       blockchain_finalizeProposal proposalId >>
       updateEventState (doc_eventId proposal) (state_value RESOLVED) >>
       scheduleSettlement (doc_eventId proposal))
    (λ error,
       logger_error ("Failed to finalize proposal: " +:+ message error) >>
       throw error).

Definition settleEvent (eventId : string) : M World unit :=
  try_catch
    (logger_log ("Settling event: " +:+ eventId) >>
     let! event := fetchEventData eventId in
     if negb (String.eqb (status event) (state_value RESOLVED))
     then throw EventNotResolved
     else
       blockchain_settleEvent eventId >>
       distributeRewards eventId >>
       updateEventState eventId (state_value SETTLED) >>
       cleanupEventData eventId)
    (λ error,
       logger_error ("Failed to settle event: " +:+ message error) >>
       throw error).

End Service.

End Resolution.

(** ** indexer.service.ts *)

Module Indexer.

(** The one mutable field of [IndexerService]. *)
Record IndexerService := mkIndexer {
  lastIndexedBlock : Z;
}.

(** What the chain and the event manager answer during one tick: the head
    block number, the [oracleRegistry] contract ([None] when [getContract]
    returns [undefined]) with its [queryFilter] for [EventCreated] over a
    block range, and the answer to each POST to [/events/blockchain]. *)
Record Chain := mkChain {
  getBlockNumber : Response Z;
  oracleRegistry : option (Z → Z → Response (list EventLog));
  postBlockchainEvent : EventLog → Response unit;
}.

(** Whether the body posted for a log can be written as JSON: its
    [resolutionTime] must not be a [bigint]. *)
Definition serializable (event : EventLog) : bool :=
  match log_resolutionTime event with
  | Number _ => true
  | BigInt _ => false
  end.

Section Service.
Context (C : Chain).

(** [httpService.post(url, body)]: the HTTP client first turns the body
    into JSON text, and [JSON.stringify] throws on a [bigint]; only a body that
    serializes leaves as a request, to be answered by the peer. *)
Definition httpService_post (event : EventLog) : M IndexerService unit :=
  if serializable event
  then emit (PostBlockchainEvent event) >> await (postBlockchainEvent C event)
  else throw (PeerError "Do not know how to serialize a BigInt").

Definition handleEventCreated (event : EventLog) : M IndexerService unit :=
  try_catch
    (httpService_post event >>
     logger_log ("Indexed event: " +:+ log_eventId event))
    (λ error, logger_error ("Failed to handle event: " +:+ message error)).

Definition processBlocks (fromBlock toBlock : Z) : M IndexerService unit :=
  logger_log ("Indexing blocks " +:+ pretty fromBlock +:+ " to " +:+ pretty toBlock) >>
  match oracleRegistry C with
  | None => ret tt
  | Some queryFilter =>
      emit (QueryEventCreated fromBlock toBlock) >>
      let! events := await (queryFilter fromBlock toBlock) in
      for_of events handleEventCreated
  end.

(** One firing of the cron job. *)
Definition indexNewBlocks : M IndexerService unit :=
  try_catch
    (let! currentBlock := await (getBlockNumber C) in
     let! last := gets lastIndexedBlock in
     (if (last =? 0)%Z
      then modify (λ _, {| lastIndexedBlock := (currentBlock - 100)%Z |})
      else ret tt) >>
     let! last := gets lastIndexedBlock in
     if (last <? currentBlock)%Z
     then
       processBlocks (last + 1)%Z currentBlock >>
       modify (λ _, {| lastIndexedBlock := currentBlock |})
     else ret tt)
    (λ error, logger_error ("Indexing error: " +:+ message error)).

End Service.

(** The value [lastIndexedBlock] has after the seeding step of a tick that
    sees [head]. *)
Definition seeded (head : Z) (s : IndexerService) : Z :=
  if (lastIndexedBlock s =? 0)%Z then (head - 100)%Z else lastIndexedBlock s.

End Indexer.

(** ** Proposal submission: blockchain.service.ts and resolution.service.ts *)

Module Submission.
Import Resolution.

(** The fields of [proposalData] that [submitProposal] reads; [outcome] is
    the text [JSON.stringify(proposalData.outcome)]. *)
Record ProposalData := mkProposalData {
  outcome : string;
  confidenceScore : Z;
  evidenceUri : string;
  bondAmount : Z;
}.

(** The arguments of [contract.submitProposal], the attached value last. *)
Record SubmitCall := mkSubmitCall {
  call_proposalId : string;
  call_eventId : string;
  call_outcomeHash : string;
  call_outcome : string;
  call_confidenceScore : Z;
  call_evidenceUri : string;
  call_value : Z;
}.

(** What [submitProposal] returns. *)
Record Submitted := mkSubmitted {
  proposalId : string;
  transactionHash : string;
  sub_livenessExpiry : Z;
}.

Section Service.
Context (P : Peers).
(** [ethers.id], the hash of a text, and the answer of the proposal manager
    to [submitProposal] followed by [tx.wait()]: the hash of the receipt. *)
Context (ethers_id : string → string).
Context (submitProposalTx : SubmitCall → Response string).

(** [BlockchainService.submitProposal] *)
Definition blockchain_submitProposal (eventId : string) (proposalData : ProposalData)
    : M World Submitted :=
  try_catch
    (match proposalManager P with
     | None => throw (ContractNotLoaded "Proposal contract not loaded")
     | Some _ =>
         let! now := gets clock in
         let proposalId := ethers_id (eventId +:+ "_" +:+ pretty now) in
         let outcomeHash := ethers_id (outcome proposalData) in
         emit (TxSubmitProposal proposalId (ethers_id eventId)) >>
         let! hash := await (submitProposalTx
                               {| call_proposalId := proposalId;
                                  call_eventId := ethers_id eventId;
                                  call_outcomeHash := outcomeHash;
                                  call_outcome := outcome proposalData;
                                  call_confidenceScore := confidenceScore proposalData;
                                  call_evidenceUri := evidenceUri proposalData;
                                  call_value := bondAmount proposalData |}) in
         logger_log ("Proposal submitted: " +:+ proposalId +:+ ", tx: " +:+ hash) >>
         let! later := gets clock in
         ret {| proposalId := proposalId; transactionHash := hash;
                sub_livenessExpiry := (later + 2 * 60 * 60 * 1000)%Z |}
     end)
    (λ error,
       logger_error ("Failed to submit proposal: " +:+ message error) >>
       throw error).

Definition submitProposalToChain (eventId : string) (proposalData : ProposalData)
    : M World Submitted :=
  blockchain_submitProposal eventId proposalData.

(** [ResolutionService.initiateProposal] *)
Definition initiateProposal (eventId : string) (proposalData : ProposalData)
    : M World string :=
  try_catch
    (logger_log ("Initiating proposal for event: " +:+ eventId) >>
     let! proposal := submitProposalToChain eventId proposalData in
     scheduleLivenessMonitoring (proposalId proposal) (sub_livenessExpiry proposal) >>
     updateEventState P eventId (state_value LIVENESS) >>
     ret (proposalId proposal))
    (λ error,
       logger_error ("Failed to initiate proposal: " +:+ message error) >>
       throw error).

End Service.

End Submission.

(** ** liveness.processor.ts and settlement.processor.ts *)

Module Processors.
Import Resolution.

Section Workers.
Context (P : Peers).

(** [LivenessProcessor.handleLivenessCheck], on the payload of the job. *)
Definition handleLivenessCheck (proposalId : string) : M World unit :=
  logger_log ("Checking liveness for proposal: " +:+ proposalId) >>
  try_catch
    (finalizeProposal P proposalId >>
     logger_log ("Proposal finalized: " +:+ proposalId))
    (λ error,
       logger_error ("Liveness check failed for " +:+ proposalId +:+ ": " +:+
                     message error) >>
       throw error).

(** [SettlementProcessor.handleSettlement] *)
Definition handleSettlement (eventId : string) : M World unit :=
  logger_log ("Processing settlement for event: " +:+ eventId) >>
  try_catch
    (settleEvent P eventId >>
     logger_log ("Event settled: " +:+ eventId))
    (λ error,
       logger_error ("Settlement failed for " +:+ eventId +:+ ": " +:+ message error) >>
       throw error).

End Workers.

End Processors.

(** ** Vocabulary of the properties *)

(** A log line, as opposed to a request sent to a peer, the cache or a queue. *)
Definition is_log (e : Effect) : bool :=
  match e with
  | LogInfo _ | LogError _ => true
  | _ => false
  end.

Definition requests (l : list Effect) : list Effect :=
  filter (λ e, is_log e = false) l.

(** Log lines, reads of a peer and cache fills: what a call may send without
    advancing or undoing anything. *)
Definition is_read (e : Effect) : bool :=
  match e with
  | LogInfo _ | LogError _ | GetEvent _ | GetProposal _ | GetDisputes _
  | CacheSet _ => true
  | _ => false
  end.

(** The steps of a settlement: chain transaction, reward POST, state PATCH
    and cache purge. *)
Definition is_settlement_step (e : Effect) : bool :=
  match e with
  | TxSettleEvent _ | PostDistribute _ | PatchEvent _ _ _ | CacheDelete _ => true
  | _ => false
  end.

(** The finalization gate I-F1, in the words of the specification: status
    "liveness", now at or past [livenessExpiry], and a dispute query that
    returns no dispute. *)
Definition I_F1 (P : Resolution.Peers) (w : Resolution.World) (proposal : Doc) : Prop :=
  status proposal = "liveness" ∧
  (livenessExpiry proposal ≤ Resolution.clock w)%Z ∧
  Resolution.getDisputes P (doc_proposalId proposal) = Reply [].

(** The same peers with another answer of the reward service, or of the
    notification service. *)
Definition with_postDistribute (f : string → Response unit)
    (P : Resolution.Peers) : Resolution.Peers :=
  {| Resolution.getProposal := Resolution.getProposal P;
     Resolution.getDisputes := Resolution.getDisputes P;
     Resolution.patchEvent := Resolution.patchEvent P;
     Resolution.postDistribute := f;
     Resolution.postNotifyArbitrators := Resolution.postNotifyArbitrators P;
     Resolution.proposalManager := Resolution.proposalManager P;
     Resolution.oracleRegistry := Resolution.oracleRegistry P |}.

Definition with_postNotifyArbitrators (f : string → string → Response unit)
    (P : Resolution.Peers) : Resolution.Peers :=
  {| Resolution.getProposal := Resolution.getProposal P;
     Resolution.getDisputes := Resolution.getDisputes P;
     Resolution.patchEvent := Resolution.patchEvent P;
     Resolution.postDistribute := Resolution.postDistribute P;
     Resolution.postNotifyArbitrators := f;
     Resolution.proposalManager := Resolution.proposalManager P;
     Resolution.oracleRegistry := Resolution.oracleRegistry P |}.

(** The context [processEvent] builds for an event fetched at time [now]. *)
Definition replayed (eventId : string) (event : Doc) (now : Z) : ResolutionContext :=
  {| ctx_eventId := eventId; ctx_proposalId := None;
     currentState := status event;
     metadata := default ∅ (doc_metadata event);
     timestamp := now |}.

(** Modelled from the spec: the cache is best-effort (section 4.1), a [get]
    may miss although a [set] went before.  Between two calls the cache may
    have dropped any of its entries: [later] holds nothing that [earlier]
    did not hold. *)
Definition evicted (later earlier : gmap string Cache.Entry) : Prop :=
  later ⊆ earlier.

(** A liveness job of [proposalId] that is still delayed or waiting. *)
Definition outstanding (proposalId : string) (j : Bull.Job) : Prop :=
  Bull.data j !! "proposalId" = Some proposalId ∧ Bull.removable j.

#[global] Instance outstanding_dec (proposalId : string) (j : Bull.Job) :
  Decision (outstanding proposalId j).
Proof. unfold outstanding, Bull.removable. apply _. Defined.

(** The call [submitProposal] makes to the proposal manager for an event
    at time [now]. *)
Definition submit_call (ethers_id : string → string) (eventId : string)
    (proposalData : Submission.ProposalData) (now : Z) : Submission.SubmitCall :=
  {| Submission.call_proposalId := ethers_id (eventId +:+ "_" +:+ pretty now);
     Submission.call_eventId := ethers_id eventId;
     Submission.call_outcomeHash := ethers_id (Submission.outcome proposalData);
     Submission.call_outcome := Submission.outcome proposalData;
     Submission.call_confidenceScore := Submission.confidenceScore proposalData;
     Submission.call_evidenceUri := Submission.evidenceUri proposalData;
     Submission.call_value := Submission.bondAmount proposalData |}.

(** Whether a colon occurs in an identifier. *)
Fixpoint has_colon (s : string) : bool :=
  match s with
  | EmptyString => false
  | String c s' => Ascii.eqb c ":"%char || has_colon s'
  end.

(** The states under which [transitions] has an entry. *)
Definition keyed_states : list string :=
  ["created"; "detecting"; "proposing"; "liveness"; "disputed"; "arbitration";
   "resolved"].

(** ** Concrete inputs used by the examples below *)

Module Scenario.
Import StateMachine.

Definition ctx_in (state : string) : ResolutionContext :=
  {| ctx_eventId := "e1"; ctx_proposalId := None; currentState := state;
     metadata := ∅; timestamp := 0 |}.

(** A table with one guarded edge and one edge with a failing action, to
    exercise the hooks the source table leaves empty. *)
Definition guarded_table : gmap string (list (StateTransition unit)) :=
  list_to_map [
    ("resolved",
       [{| from := ["liveness"]; to := "resolved";
           condition := Some (λ c, bool_decide (metadata c !! "disputes" = None));
           action := None |}]);
    ("settled",
       [{| from := ["resolved"]; to := "settled"; condition := None;
           action := Some (modify (λ s, (set_currentState "settling" (fst s), snd s)) >>
                           throw (PeerError "settle failed")) |}])
  ].

Definition ctx_disputed_meta : ResolutionContext :=
  {| ctx_eventId := "e1"; ctx_proposalId := None; currentState := "liveness";
     metadata := {["disputes" := "1"]}; timestamp := 0 |}.

(** One event [e1] and one proposal [p1] for it, with a liveness window that
    ends at 7 200 000 ms. *)
Definition event_e1 (state : string) : Doc :=
  {| doc_eventId := "e1"; doc_proposalId := ""; status := state;
     livenessExpiry := 0; doc_metadata := None |}.

Definition proposal_p1 : Doc :=
  {| doc_eventId := "e1"; doc_proposalId := "p1"; status := "liveness";
     livenessExpiry := 7200000; doc_metadata := None |}.

(** Peers that answer every critical request; [disputes] is what the dispute
    service returns for [p1], [side] is the answer of the two best-effort
    POSTs. *)
Definition peers (disputes : list string) (side : Response unit) : Resolution.Peers :=
  {| Resolution.getProposal := λ id,
       if String.eqb id "p1" then Reply proposal_p1
       else Reject "Request failed with status code 404";
     Resolution.getDisputes := λ id, Reply (if String.eqb id "p1" then disputes else []);
     Resolution.patchEvent := λ _ _, Reply tt;
     Resolution.postDistribute := λ _, side;
     Resolution.postNotifyArbitrators := λ _ _, side;
     Resolution.proposalManager := Some (λ _, Reply "0xf1");
     Resolution.oracleRegistry := Some (λ _, Reply "0x5e") |}.

Definition world (now : Z) (state : string) : Resolution.World :=
  {| Resolution.clock := now; Resolution.cache := ∅;
     Resolution.eventManager := {["e1" := event_e1 state]};
     Resolution.livenessQueue := Bull.mkQueue [] 0;
     Resolution.settlementQueue := Bull.mkQueue [] 0 |}.

(** The liveness window of [p1] is open and its timer is queued, next to the
    timer of another proposal. *)
Definition world_with_timers : Resolution.World :=
  final (Resolution.scheduleLivenessMonitoring "p2" 9000000
           (final (Resolution.scheduleLivenessMonitoring "p1" 7200000
                     (world 0 "liveness")))).

(** A chain with one [EventCreated] log, in block 950, its [resolutionTime]
    a [bigint] as the [uint256] of a log is decoded.  [head] is the block
    number the provider reports and [answer] what the event manager replies
    to the POST of a log. *)
Definition log_950 : EventLog :=
  {| log_eventId := "e1"; log_description := "rain in Lagos on 1 May";
     log_resolutionTime := BigInt 1714521600; log_blockNumber := 950;
     log_transactionHash := "0xabc" |}.

Definition chain (head : Z) (answer : Response unit) : Indexer.Chain :=
  {| Indexer.getBlockNumber := Reply head;
     Indexer.oracleRegistry := Some (λ fromBlock toBlock,
       Reply (filter (λ l, (fromBlock ≤ log_blockNumber l ≤ toBlock)%Z) [log_950]));
     Indexer.postBlockchainEvent := λ _, answer |}.

(** The same chain with a second log, in block 960, whose [resolutionTime]
    is a [number], so that its body serializes. *)
Definition log_960 : EventLog :=
  {| log_eventId := "e2"; log_description := "turnout above 60 percent";
     log_resolutionTime := Number 1714608000; log_blockNumber := 960;
     log_transactionHash := "0xdef" |}.

Definition chain_two_logs (head : Z) (answer : Response unit) : Indexer.Chain :=
  {| Indexer.getBlockNumber := Reply head;
     Indexer.oracleRegistry := Some (λ fromBlock toBlock,
       Reply (filter (λ l, (fromBlock ≤ log_blockNumber l ≤ toBlock)%Z)
                [log_950; log_960]));
     Indexer.postBlockchainEvent := λ _, answer |}.

(** A chain adapter whose [getContract] finds no oracle registry. *)
Definition chain_without_registry : Indexer.Chain :=
  {| Indexer.getBlockNumber := Reply 1003%Z;
     Indexer.oracleRegistry := None;
     Indexer.postBlockchainEvent := λ _, Reply tt |}.

End Scenario.

(** * Properties *)

Local Opaque String.append.
#[local] Set Warnings "-clear-no-such-hyp".
#[local] Set Warnings "-tactics".

(** The service methods are unfolded by hand, one at a time. *)
Arguments Resolution.fetchEventData : simpl never.
Arguments Resolution.fetchProposalData : simpl never.
Arguments Resolution.fetchProposalDisputes : simpl never.
Arguments Resolution.checkFinalizationConditions : simpl never.
Arguments Resolution.updateEventState : simpl never.
Arguments Resolution.blockchain_finalizeProposal : simpl never.
Arguments Resolution.blockchain_settleEvent : simpl never.
Arguments Resolution.distributeRewards : simpl never.
Arguments Resolution.notifyArbitrators : simpl never.
Arguments Resolution.pauseLivenessMonitoring : simpl never.
Arguments Resolution.scheduleSettlement : simpl never.
Arguments Resolution.cleanupEventData : simpl never.
Arguments StateMachine.transition : simpl never.
Arguments Indexer.processBlocks : simpl never.
Arguments Indexer.handleEventCreated : simpl never.

(** ** Running the monad one step at a time *)

Section Run.
Context {S A B : Type}.

Lemma bind_run (m : M S A) (k : A → M S B) (s : S) :
  bind m k s =
    match m s with
    | mkOutcome (Ok a) s1 eff1 =>
        match k a s1 with
        | mkOutcome r s2 eff2 => mkOutcome r s2 (eff1 ++ eff2)
        end
    | mkOutcome (Err e) s1 eff1 => mkOutcome (Err e) s1 eff1
    end.
Proof. reflexivity. Qed.

Lemma try_catch_run (m : M S A) (h : error → M S A) (s : S) :
  try_catch m h s =
    match m s with
    | mkOutcome (Ok a) s1 eff1 => mkOutcome (Ok a) s1 eff1
    | mkOutcome (Err e) s1 eff1 =>
        match h e s1 with
        | mkOutcome r s2 eff2 => mkOutcome r s2 (eff1 ++ eff2)
        end
    end.
Proof. reflexivity. Qed.

Lemma ret_run (a : A) (s : S) : ret a s = mkOutcome (Ok a) s [].
Proof. reflexivity. Qed.

Lemma throw_run (e : error) (s : S) : throw (A:=A) e s = mkOutcome (Err e) s [].
Proof. reflexivity. Qed.

Lemma gets_run (f : S → A) (s : S) : gets f s = mkOutcome (Ok (f s)) s [].
Proof. reflexivity. Qed.

Lemma modify_run (f : S → S) (s : S) : modify f s = mkOutcome (Ok tt) (f s) [].
Proof. reflexivity. Qed.

Lemma emit_run (e : Effect) (s : S) : emit e s = mkOutcome (Ok tt) s [e].
Proof. reflexivity. Qed.

Lemma logger_log_run (msg : string) (s : S) :
  logger_log msg s = mkOutcome (Ok tt) s [LogInfo msg].
Proof. reflexivity. Qed.

Lemma logger_error_run (msg : string) (s : S) :
  logger_error msg s = mkOutcome (Ok tt) s [LogError msg].
Proof. reflexivity. Qed.
End Run.

(** Symbolic execution up to the next call that is kept folded. *)
Ltac mstep :=
  repeat (progress (rewrite ?bind_run, ?try_catch_run, ?ret_run, ?throw_run,
                      ?gets_run, ?modify_run, ?emit_run, ?logger_log_run,
                      ?logger_error_run; simpl)).

(** ** The state machine *)

Section StateMachineFacts.
Import StateMachine.
Context {W : Type}.
Implicit Types (table : gmap string (list (StateTransition W))).

(** How [transition] runs, case by case. *)
Lemma transition_in_invalid table target context (w : W) :
  find (from_includes (currentState context)) (validTransitions table target) = None →
  transition_in table target (context, w) =
    mkOutcome (Err (InvalidTransition (currentState context) target)) (context, w) [].
Proof. intros H. unfold transition_in, bind, gets, throw. simpl. by rewrite H. Qed.

Lemma transition_in_guard table target context (w : W) t :
  find (from_includes (currentState context)) (validTransitions table target) = Some t →
  condition_fails t context = true →
  transition_in table target (context, w) =
    mkOutcome (Err (ConditionNotMet (currentState context) target)) (context, w) [].
Proof.
  intros H Hc. unfold transition_in, bind, gets, throw. simpl. by rewrite H, Hc.
Qed.

Lemma transition_in_action table target context (w : W) t :
  find (from_includes (currentState context)) (validTransitions table target) = Some t →
  condition_fails t context = false →
  let oa := run_action t (context, w) in
  transition_in table target (context, w) =
    match result oa with
    | Ok _ =>
        mkOutcome (Ok tt) (set_currentState target (fst (final oa)), snd (final oa))
          (effects oa ++
           [LogInfo ("State transition: " +:+ currentState context +:+ " -> " +:+ target)])
    | Err e => mkOutcome (Err e) (final oa) (effects oa)
    end.
Proof.
  intros H Hc. unfold transition_in, bind, gets, throw. simpl. rewrite H, Hc.
  destruct (run_action t (context, w)) as [[[]|e] [c' w'] eff]; reflexivity.
Qed.

Lemma transitions_lookup (target : string) (l : list (StateTransition W)) :
  transitions !! target = Some l →
  ∀ t, t ∈ l → from t = [target] ∧ condition t = None ∧ action t = None.
Proof.
  unfold transitions. intros H%elem_of_list_to_map_2 t Ht.
  repeat (apply elem_of_cons in H as [H|H];
          [injection H as -> ->;
           repeat (apply elem_of_cons in Ht as [->|Ht]; [by repeat split|]);
           by apply elem_of_nil in Ht|]).
  by apply elem_of_nil in H.
Qed.

Lemma validTransitions_source (target : string) (t : StateTransition W) :
  t ∈ validTransitions transitions target →
  from t = [target] ∧ condition t = None ∧ action t = None.
Proof.
  unfold validTransitions. destruct (transitions !! target) as [l|] eqn:E; simpl.
  - by apply transitions_lookup.
  - by intros ?%elem_of_nil.
Qed.

Lemma find_existsb {A} (p : A → bool) (l : list A) :
  existsb p l = bool_decide (is_Some (find p l)).
Proof.
  induction l as [|a l IH]; simpl; [done|].
  destruct (p a); simpl; done.
Qed.

(** [transition] over the source's table: it returns exactly when
    [canTransition] says so, and then only [currentState] has changed. *)
Lemma transition_source (target : string) (context : ResolutionContext) (w : W) :
  transition target (context, w) =
    if canTransition (W:=W) (currentState context) target
    then mkOutcome (Ok tt) (set_currentState target context, w)
           [LogInfo ("State transition: " +:+ currentState context +:+ " -> " +:+ target)]
    else mkOutcome (Err (InvalidTransition (currentState context) target)) (context, w) [].
Proof.
  unfold transition, canTransition. rewrite find_existsb.
  destruct (find _ _) as [t|] eqn:E.
  - rewrite bool_decide_eq_true_2 by eauto.
    destruct (find_some _ _ E) as [Hin _].
    apply list_elem_of_In, validTransitions_source in Hin as (_ & Hc & Ha).
    rewrite (transition_in_action _ _ _ _ t E); unfold condition_fails, run_action;
      rewrite ?Hc, ?Ha; done.
  - rewrite bool_decide_eq_false_2 by (by intros [? ?]).
    by apply transition_in_invalid.
Qed.

End StateMachineFacts.

(** Over the ten states, the lookup keyed by the target accepts the
    self-loops of the seven states that are keys of the table, and nothing
    else. *)
Lemma canTransition_self_loops (f t : ResolutionState) :
  StateMachine.canTransition (W:=unit) (state_value f) (state_value t) =
    bool_decide (f = t) && StateMachine.has_outgoing f.
Proof. destruct f, t; vm_compute; reflexivity. Qed.

(** In particular each of the thirteen edges of the graph is refused. *)
Lemma table_edges_all_refused (f t : ResolutionState) :
  StateMachine.table_edge f t = true →
  StateMachine.canTransition (W:=unit) (state_value f) (state_value t) = false.
Proof. rewrite canTransition_self_loops. by destruct f, t. Qed.

(** From "settled" no target is accepted, whatever string is asked for. *)
Lemma settled_is_terminal (target : string) :
  StateMachine.canTransition (W:=unit) "settled" target = false.
Proof.
  unfold StateMachine.canTransition. rewrite find_existsb.
  apply bool_decide_eq_false_2. intros [t Hfind].
  destruct (find_some _ _ Hfind) as [Hin Hfrom].
  apply list_elem_of_In in Hin.
  destruct (validTransitions_source target t Hin) as (Hf & _ & _).
  unfold StateMachine.from_includes in Hfrom. rewrite Hf in Hfrom.
  apply bool_decide_eq_true_1, list_elem_of_singleton in Hfrom. subst target.
  vm_compute in Hin. inversion Hin.
Qed.

(** C1 (the code departs from the claim).  The edge created -> detecting of
    the table of section 4.3 is refused: [canTransition] answers false and
    [transition] throws InvalidTransition, because the table is looked up
    under the target state.  The self-loop created -> created, which is not
    an edge, is accepted. *)
Theorem canTransition_created_detecting :
  StateMachine.table_edge CREATED DETECTING = true ∧
  StateMachine.canTransition (W:=unit) "created" "detecting" = false ∧
  result (StateMachine.transition "detecting" (Scenario.ctx_in "created", tt)) =
    Err (InvalidTransition "created" "detecting") ∧
  StateMachine.table_edge CREATED CREATED = false ∧
  StateMachine.canTransition (W:=unit) "created" "created" = true ∧
  result (StateMachine.transition "created" (Scenario.ctx_in "created", tt)) = Ok tt.
Proof. vm_compute. repeat split; reflexivity. Qed.

(** C10.  A transition that fails because no edge is found, or because the
    condition of the edge found is false, leaves the context object (and
    with it [currentState]) as it was.  When the transition returns, an edge
    was found, its condition did not fail, its action (if any) returned, and
    [currentState] is the target; when the action throws, the context is
    left as the action left it, with no assignment of the target. *)
Theorem transition_failure_keeps_context {W : Type}
    (table : gmap string (list (StateMachine.StateTransition W)))
    (target : string) (context : ResolutionContext) (w : W) :
  let o := StateMachine.transition_in table target (context, w) in
  let found := find (StateMachine.from_includes (currentState context))
                 (StateMachine.validTransitions table target) in
  (found = None →
     result o = Err (InvalidTransition (currentState context) target) ∧
     final o = (context, w)) ∧
  (∀ t, found = Some t → StateMachine.condition_fails t context = true →
     result o = Err (ConditionNotMet (currentState context) target) ∧
     final o = (context, w)) ∧
  (∀ t e, found = Some t → StateMachine.condition_fails t context = false →
     result (StateMachine.run_action t (context, w)) = Err e →
     result o = Err e ∧ final o = final (StateMachine.run_action t (context, w))) ∧
  (result o = Ok tt →
     ∃ t, found = Some t ∧ StateMachine.condition_fails t context = false ∧
          result (StateMachine.run_action t (context, w)) = Ok tt ∧
          currentState (fst (final o)) = target).
Proof.
  intros o found. subst o found. split; [|split; [|split]].
  - intros Hnone. by rewrite transition_in_invalid.
  - intros t Hfound Hcond. by erewrite transition_in_guard.
  - intros t e Hfound Hcond Hact.
    erewrite transition_in_action by eassumption. simpl. by rewrite Hact.
  - intros Hok.
    destruct (find _ _) as [t|] eqn:E.
    + destruct (StateMachine.condition_fails t context) eqn:Hc.
      * by erewrite transition_in_guard in Hok.
      * exists t. erewrite transition_in_action in Hok |- * by eassumption.
        simpl in *. destruct (result (StateMachine.run_action t (context, w))) as [[]|e];
          simpl in *; [done|discriminate].
    + by rewrite transition_in_invalid in Hok.
Qed.

(** C10 at concrete inputs: no edge, a guard that fails, an action that
    throws after touching the context, and a transition that returns. *)
Lemma transition_failure_keeps_context_witness :
  final (StateMachine.transition_in Scenario.guarded_table "settled"
           (Scenario.ctx_in "liveness", tt)) = (Scenario.ctx_in "liveness", tt) ∧
  final (StateMachine.transition_in Scenario.guarded_table "resolved"
           (Scenario.ctx_disputed_meta, tt)) = (Scenario.ctx_disputed_meta, tt) ∧
  currentState (fst (final (StateMachine.transition_in Scenario.guarded_table "settled"
           (Scenario.ctx_in "resolved", tt)))) = "settling" ∧
  currentState (fst (final (StateMachine.transition_in Scenario.guarded_table "resolved"
           (Scenario.ctx_in "liveness", tt)))) = "resolved".
Proof.
  split; [|split; [|split]].
  - apply (transition_failure_keeps_context Scenario.guarded_table "settled"
             (Scenario.ctx_in "liveness") tt). reflexivity.
  - eapply (transition_failure_keeps_context Scenario.guarded_table "resolved"
              Scenario.ctx_disputed_meta tt); reflexivity.
  - pose proof (transition_failure_keeps_context Scenario.guarded_table "settled"
                  (Scenario.ctx_in "resolved") tt) as (_ & _ & H & _).
    edestruct H as [_ ->]; reflexivity.
  - pose proof (transition_failure_keeps_context Scenario.guarded_table "resolved"
                  (Scenario.ctx_in "liveness") tt) as (_ & _ & _ & H).
    destruct H as (t & _ & _ & _ & Ht); [reflexivity | exact Ht].
Defined.

(** ** The orchestrator *)

Section ResolutionFacts.
Import Resolution.
Context (P : Peers).

Lemma fetchEventData_run (eventId : string) (w : World) :
  fetchEventData eventId w =
    match Cache.get (clock w) ("event:" +:+ eventId) (cache w) with
    | Some doc => mkOutcome (Ok doc) w []
    | None =>
        match eventManager w !! eventId with
        | Some d =>
            mkOutcome (Ok d)
              (set_cache (Cache.set (clock w) ("event:" +:+ eventId) d 300) w)
              [GetEvent eventId; CacheSet ("event:" +:+ eventId)]
        | None =>
            mkOutcome (Err (PeerError "Request failed with status code 404")) w
              [GetEvent eventId]
        end
    end.
Proof.
  unfold fetchEventData, bind, cacheService_get, gets. simpl.
  destruct (Cache.get _ _ _); [done|]. simpl.
  destruct (eventManager w !! eventId); done.
Qed.

Lemma fetchProposalData_run (proposalId : string) (w : World) :
  fetchProposalData P proposalId w =
    match Cache.get (clock w) ("proposal:" +:+ proposalId) (cache w) with
    | Some doc => mkOutcome (Ok doc) w []
    | None =>
        match getProposal P proposalId with
        | Reply d =>
            mkOutcome (Ok d)
              (set_cache (Cache.set (clock w) ("proposal:" +:+ proposalId) d 300) w)
              [GetProposal proposalId; CacheSet ("proposal:" +:+ proposalId)]
        | Reject msg => mkOutcome (Err (PeerError msg)) w [GetProposal proposalId]
        end
    end.
Proof.
  unfold fetchProposalData, bind, cacheService_get, gets. simpl.
  destruct (Cache.get _ _ _); [done|]. simpl.
  destruct (getProposal P proposalId); done.
Qed.

Lemma checkFinalizationConditions_run (proposal : Doc) (w : World) :
  checkFinalizationConditions P proposal w =
    if negb (String.eqb (status proposal) "liveness") then mkOutcome (Ok false) w []
    else if (clock w <? livenessExpiry proposal)%Z then mkOutcome (Ok false) w []
    else
      match getDisputes P (doc_proposalId proposal) with
      | Reply ds =>
          mkOutcome (Ok (length ds =? 0)%nat) w [GetDisputes (doc_proposalId proposal)]
      | Reject msg =>
          mkOutcome (Err (PeerError msg)) w [GetDisputes (doc_proposalId proposal)]
      end.
Proof.
  unfold checkFinalizationConditions.
  destruct (negb _); [done|].
  unfold bind, gets, fetchProposalDisputes. simpl.
  destruct (clock w <? _)%Z; [done|]. simpl.
  destruct (getDisputes P _); done.
Qed.

Lemma fetchProposalData_clock (proposalId : string) (w : World) :
  clock (final (fetchProposalData P proposalId w)) = clock w.
Proof.
  rewrite fetchProposalData_run.
  destruct (Cache.get _ _ _); [done|]. destruct (getProposal P proposalId); done.
Qed.

Lemma fetchProposalData_no_tx (proposalId : string) (w : World) :
  ∀ id, TxFinalizeProposal id ∉ effects (fetchProposalData P proposalId w).
Proof.
  intros id. rewrite fetchProposalData_run.
  destruct (Cache.get _ _ _); [set_solver|].
  destruct (getProposal P proposalId); set_solver.
Qed.

End ResolutionFacts.

(** C2.  [finalizeProposal] sends the finalize transaction only if the
    proposal it fetched passes the gate I-F1 at the clock reading of the
    call: status "liveness", [livenessExpiry] at or before now, and no
    dispute returned for the proposal.  When the fetched proposal fails the
    gate (wrong status, or now before the expiry, or at least one dispute
    returned) the call throws PreconditionNotMet and sends no finalize
    transaction. *)
Theorem finalizeProposal_gate (P : Resolution.Peers) (proposalId : string)
    (w : Resolution.World) :
  let o := Resolution.finalizeProposal P proposalId w in
  (∀ id, TxFinalizeProposal id ∈ effects o →
     ∃ proposal,
       result (Resolution.fetchProposalData P proposalId w) = Ok proposal ∧
       I_F1 P w proposal) ∧
  (∀ proposal,
     result (Resolution.fetchProposalData P proposalId w) = Ok proposal →
     status proposal ≠ "liveness" ∨
     (Resolution.clock w < livenessExpiry proposal)%Z ∨
     (∃ d ds, Resolution.getDisputes P (doc_proposalId proposal) = Reply (d :: ds)) →
     result o = Err PreconditionNotMet ∧
     ∀ id, TxFinalizeProposal id ∉ effects o).
Proof.
  intros o. subst o. unfold Resolution.finalizeProposal, try_catch, bind. simpl.
  pose proof (fetchProposalData_clock P proposalId w) as Hclock.
  pose proof (fetchProposalData_no_tx P proposalId w) as Heff1.
  destruct (Resolution.fetchProposalData P proposalId w) as [[proposal|e] w1 eff1] eqn:Hfetch;
    simpl in *.
  2:{ split; [|by intros ? [=]]. intros id Hin. set_solver. }
  rewrite checkFinalizationConditions_run, Hclock.
  destruct (String.eqb_spec (status proposal) "liveness") as [Hst|Hst]; simpl.
  2:{ split; [intros id Hin; set_solver|].
      intros p [= <-] _. split; [done|]. set_solver. }
  destruct (Z.ltb_spec (Resolution.clock w) (livenessExpiry proposal)) as [Hlt|Hge]; simpl.
  { split; [intros id Hin; set_solver|].
    intros p [= <-] _. split; [done|]. set_solver. }
  destruct (Resolution.getDisputes P (doc_proposalId proposal)) as [[|d ds]|msg] eqn:Hd; simpl.
  - split.
    + intros id _. exists proposal. split; [done|]. by repeat split.
    + intros p [= <-] [?|[?|(d & ds & ?)]]; [done|lia|congruence].
  - split; [intros id Hin; set_solver|].
    intros p [= <-] _. split; [done|]. set_solver.
  - split; [intros id Hin; set_solver|].
    intros p [= <-] [?|[?|(d & ds & ?)]]; [done|lia|congruence].
Qed.


Ltac in_explicit_list :=
  repeat first [apply list_elem_of_here | apply list_elem_of_further].

(** An event fetched in [w] comes from the cache or from the event
    manager; the fetch leaves the clock, the event records and the queues
    alone and sends reads only. *)
Lemma fetchEventData_frame (eventId : string) (w : Resolution.World) :
  let o := Resolution.fetchEventData eventId w in
  Resolution.clock (final o) = Resolution.clock w ∧
  Resolution.eventManager (final o) = Resolution.eventManager w ∧
  Resolution.livenessQueue (final o) = Resolution.livenessQueue w ∧
  Resolution.settlementQueue (final o) = Resolution.settlementQueue w ∧
  dom (Resolution.cache w) ⊆ dom (Resolution.cache (final o)) ∧
  Forall (λ e, is_read e = true) (effects o).
Proof.
  simpl. rewrite fetchEventData_run.
  destruct (Cache.get _ _ _); [by repeat split|].
  destruct (Resolution.eventManager w !! eventId); simpl.
  - repeat split; [|by repeat constructor].
    unfold Cache.set. rewrite dom_insert_L. set_solver.
  - repeat split; [done|]. by repeat constructor.
Qed.

(** C2 at concrete inputs: with a dispute on record the job's attempt past
    the expiry throws PreconditionNotMet and sends no transaction; with none,
    the transaction that is sent was preceded by a gate that held. *)
Lemma finalizeProposal_gate_witness :
  (result (Resolution.finalizeProposal (Scenario.peers ["d1"] (Reply tt)) "p1"
             (Scenario.world 7200001 "liveness")) = Err PreconditionNotMet ∧
   ∀ id, TxFinalizeProposal id ∉
     effects (Resolution.finalizeProposal (Scenario.peers ["d1"] (Reply tt)) "p1"
                (Scenario.world 7200001 "liveness"))) ∧
  (∃ proposal,
     result (Resolution.fetchProposalData (Scenario.peers [] (Reply tt)) "p1"
               (Scenario.world 7200001 "liveness")) = Ok proposal ∧
     I_F1 (Scenario.peers [] (Reply tt)) (Scenario.world 7200001 "liveness") proposal).
Proof.
  split.
  - apply (proj2 (finalizeProposal_gate (Scenario.peers ["d1"] (Reply tt)) "p1"
                    (Scenario.world 7200001 "liveness")) Scenario.proposal_p1).
    + reflexivity.
    + right; right. exists "d1", []. reflexivity.
  - apply (proj1 (finalizeProposal_gate (Scenario.peers [] (Reply tt)) "p1"
                    (Scenario.world 7200001 "liveness")) "p1").
    vm_compute. in_explicit_list.
Defined.

(** C3 (amended).  For a proposal in status "liveness" with no dispute
    returned, the guard passes at exactly now = [livenessExpiry]: the test is
    [now < livenessExpiry], so the guard fails on time only strictly before
    the expiry. *)
Theorem checkFinalizationConditions_at_expiry (P : Resolution.Peers)
    (w : Resolution.World) (proposal : Doc) :
  status proposal = "liveness" →
  Resolution.getDisputes P (doc_proposalId proposal) = Reply [] →
  (Resolution.clock w = livenessExpiry proposal →
     result (Resolution.checkFinalizationConditions P proposal w) = Ok true) ∧
  ((Resolution.clock w < livenessExpiry proposal)%Z ↔
     result (Resolution.checkFinalizationConditions P proposal w) = Ok false).
Proof.
  intros Hst Hd. rewrite checkFinalizationConditions_run, Hst, Hd. simpl.
  destruct (Z.ltb_spec (Resolution.clock w) (livenessExpiry proposal)); simpl.
  - split; [lia|done].
  - split; [done|]. split; [lia|discriminate].
Qed.

Lemma checkFinalizationConditions_at_expiry_witness :
  result (Resolution.checkFinalizationConditions (Scenario.peers [] (Reply tt))
            Scenario.proposal_p1 (Scenario.world 7200000 "liveness")) = Ok true.
Proof.
  apply (checkFinalizationConditions_at_expiry (Scenario.peers [] (Reply tt))
           (Scenario.world 7200000 "liveness") Scenario.proposal_p1);
    reflexivity.
Defined.

(** C3 as the claim has it is refuted: at now = [livenessExpiry], status
    "liveness" and no dispute, the guard returns true and [finalizeProposal]
    sends the transaction and returns. *)
Lemma finalize_at_expiry_passes_guard :
  let P := Scenario.peers [] (Reply tt) in
  let w := Scenario.world 7200000 "liveness" in
  Resolution.clock w = livenessExpiry Scenario.proposal_p1 ∧
  result (Resolution.checkFinalizationConditions P Scenario.proposal_p1 w) = Ok true ∧
  result (Resolution.finalizeProposal P "p1" w) = Ok tt ∧
  TxFinalizeProposal "p1" ∈ effects (Resolution.finalizeProposal P "p1" w).
Proof.
  vm_compute. repeat split. in_explicit_list.
Qed.

(** C6.  When the event that [settleEvent] fetches is not in state
    "resolved", the call throws and none of the settlement steps has been
    taken: no settle transaction, no reward POST, no PATCH and no cache
    delete were sent, the event records are as before and no cache key has
    gone. *)
Theorem settleEvent_unresolved_fails (P : Resolution.Peers) (eventId : string)
    (w : Resolution.World) (event : Doc) :
  result (Resolution.fetchEventData eventId w) = Ok event →
  status event ≠ state_value RESOLVED →
  let o := Resolution.settleEvent P eventId w in
  result o = Err EventNotResolved ∧
  Forall (λ e, is_settlement_step e = false) (effects o) ∧
  Resolution.eventManager (final o) = Resolution.eventManager w ∧
  dom (Resolution.cache w) ⊆ dom (Resolution.cache (final o)).
Proof.
  intros Hfetch Hst o. subst o.
  destruct (fetchEventData_frame eventId w) as (_ & Hem & _ & _ & Hdom & Hread).
  unfold Resolution.settleEvent, try_catch, bind. simpl.
  destruct (Resolution.fetchEventData eventId w) as [[ev|e] w1 eff1]; simpl in *;
    [injection Hfetch as ->|discriminate].
  destruct (String.eqb_spec (status event) "resolved") as [?|_]; [done|]. simpl.
  repeat split; try done.
  constructor; [done|]. rewrite app_nil_r. apply Forall_app. split.
  - eapply Forall_impl; [exact Hread|]. by intros [].
  - by repeat constructor.
Qed.

Lemma settleEvent_unresolved_fails_witness :
  result (Resolution.settleEvent (Scenario.peers [] (Reply tt)) "e1"
            (Scenario.world 0 "disputed")) = Err EventNotResolved.
Proof.
  apply (settleEvent_unresolved_fails (Scenario.peers [] (Reply tt)) "e1"
           (Scenario.world 0 "disputed") (Scenario.event_e1 "disputed")).
  - reflexivity.
  - discriminate.
Defined.

(** *** Cancellation of liveness timers *)

(** The loop of [pauseLivenessMonitoring] over any list of scanned jobs: it
    returns, it only takes jobs out, and no job that shares its id with a
    scanned job of the proposal is left delayed or waiting. *)
Lemma pause_loop (proposalId : string) (js : list Bull.Job) (w : Resolution.World) :
  let o := for_of js (λ job,
             if bool_decide (Bull.data job !! "proposalId" = Some proposalId)
             then emit (JobRemove "liveness-monitoring" (Bull.job_id job)) >>
                  modify (Resolution.set_livenessQueue (Bull.remove job))
             else ret tt) w in
  result o = Ok tt ∧
  (∀ j', j' ∈ Bull.jobs (Resolution.livenessQueue (final o)) →
         j' ∈ Bull.jobs (Resolution.livenessQueue w)) ∧
  (∀ j, j ∈ js → Bull.data j !! "proposalId" = Some proposalId →
     ∀ j', j' ∈ Bull.jobs (Resolution.livenessQueue (final o)) →
           ¬ (Bull.job_id j' = Bull.job_id j ∧ Bull.removable j')).
Proof.
  revert w. induction js as [|j js IH]; intros w; simpl.
  - repeat split; [done|]. by intros j ?%elem_of_nil.
  - rewrite bind_run. case_bool_decide as Hj.
    + rewrite bind_run, emit_run, modify_run. simpl.
      specialize (IH (Resolution.set_livenessQueue (Bull.remove j) w)).
      simpl in IH. destruct IH as (Hr & Hsub & Hgone).
      destruct (for_of js _ _) as [r w' eff]; simpl in *. subst r.
      repeat split.
      * intros j' Hin%Hsub. by apply list_elem_of_filter in Hin as [_ ?].
      * intros j0 [->|Hin0]%elem_of_cons Hpid j' Hin'; [|by eapply Hgone].
        apply Hsub in Hin'. by apply list_elem_of_filter in Hin' as [? _].
    + rewrite ret_run.
      specialize (IH w). simpl in IH. destruct IH as (Hr & Hsub & Hgone).
      destruct (for_of js _ _) as [r w' eff]; simpl in *. subst r.
      repeat split; [done|].
      intros j0 [->|Hin0]%elem_of_cons Hpid j' Hin'; [done|by eapply Hgone].
Qed.

Lemma pauseLivenessMonitoring_spec (proposalId : string) (w : Resolution.World) :
  let o := Resolution.pauseLivenessMonitoring proposalId w in
  result o = Ok tt ∧
  ∀ j, j ∈ Bull.jobs (Resolution.livenessQueue (final o)) → ¬ outstanding proposalId j.
Proof.
  unfold Resolution.pauseLivenessMonitoring. rewrite bind_run, gets_run, bind_run.
  pose proof (pause_loop proposalId
                (Bull.getJobs [Bull.delayed; Bull.waiting] (Resolution.livenessQueue w)) w)
    as (Hr & Hsub & Hgone). simpl in *.
  destruct (for_of _ _ _) as [r w' eff]; simpl in *. subst r. simpl.
  split; [done|]. intros j Hin [Hpid Hrem].
  eapply (Hgone j); [|done|done|done].
  unfold Bull.getJobs. apply list_elem_of_filter. split; [exact Hrem|by apply Hsub].
Qed.

(** C4.  When [handleDisputeDetected] returns, the liveness queue holds no
    job whose payload names the proposal and that is still delayed or
    waiting: each one found by the scan was removed before the return. *)
Theorem handleDisputeDetected_cancels_timers (P : Resolution.Peers)
    (proposalId disputeData : string) (w : Resolution.World) :
  let o := Resolution.handleDisputeDetected P proposalId disputeData w in
  result o = Ok tt →
  ∀ j, j ∈ Bull.jobs (Resolution.livenessQueue (final o)) → ¬ outstanding proposalId j.
Proof.
  intros o. subst o.
  unfold Resolution.handleDisputeDetected, try_catch, bind. simpl.
  destruct (Resolution.fetchProposalData P proposalId w) as [[proposal|e] w1 eff1];
    simpl; [|discriminate].
  destruct (Resolution.updateEventState P _ _ w1) as [[[]|e] w2 eff2]; simpl; [|discriminate].
  destruct (Resolution.notifyArbitrators P _ _ w2) as [[[]|e] w3 eff3]; simpl; [|discriminate].
  pose proof (pauseLivenessMonitoring_spec proposalId w3) as [Hr Hgone].
  destruct (Resolution.pauseLivenessMonitoring proposalId w3) as [[[]|e] w4 eff4];
    simpl in *; [|discriminate].
  intros _. exact Hgone.
Qed.

Lemma handleDisputeDetected_cancels_timers_witness :
  (∃ j, j ∈ Bull.jobs (Resolution.livenessQueue Scenario.world_with_timers) ∧
        outstanding "p1" j) ∧
  ∀ j, j ∈ Bull.jobs (Resolution.livenessQueue
             (final (Resolution.handleDisputeDetected (Scenario.peers ["d1"] (Reply tt))
                       "p1" "evidence" Scenario.world_with_timers))) →
       ¬ outstanding "p1" j.
Proof.
  split.
  - eexists. split; [apply list_elem_of_here|].
    split; [reflexivity|]. apply list_elem_of_here.
  - apply (handleDisputeDetected_cancels_timers (Scenario.peers ["d1"] (Reply tt))
             "p1" "evidence" Scenario.world_with_timers).
    reflexivity.
Defined.

(** *** Best-effort side channels *)

Lemma distributeRewards_run (P : Resolution.Peers) (eventId : string)
    (w : Resolution.World) :
  Resolution.distributeRewards P eventId w =
    match Resolution.postDistribute P eventId with
    | Reply _ =>
        mkOutcome (Ok tt) w
          [PostDistribute eventId; LogInfo ("Rewards distributed for event: " +:+ eventId)]
    | Reject msg =>
        mkOutcome (Ok tt) w
          [PostDistribute eventId; LogError ("Failed to distribute rewards: " +:+ msg)]
    end.
Proof.
  unfold Resolution.distributeRewards. mstep.
  destruct (Resolution.postDistribute P eventId); reflexivity.
Qed.

Lemma notifyArbitrators_run (P : Resolution.Peers) (proposalId disputeData : string)
    (w : Resolution.World) :
  Resolution.notifyArbitrators P proposalId disputeData w =
    match Resolution.postNotifyArbitrators P proposalId disputeData with
    | Reply _ => mkOutcome (Ok tt) w [PostNotifyArbitrators proposalId disputeData]
    | Reject msg =>
        mkOutcome (Ok tt) w
          [PostNotifyArbitrators proposalId disputeData;
           LogError ("Failed to notify arbitrators: " +:+ msg)]
    end.
Proof.
  unfold Resolution.notifyArbitrators. mstep.
  destruct (Resolution.postNotifyArbitrators P proposalId disputeData) as [[]|msg];
    reflexivity.
Qed.

Lemma updateEventState_run (P : Resolution.Peers) (eventId state : string)
    (w : Resolution.World) :
  Resolution.updateEventState P eventId state w =
    match Resolution.patchEvent P eventId state with
    | Reply _ =>
        mkOutcome (Ok tt)
          (Resolution.set_cache (Cache.del ("event:" +:+ eventId))
             (Resolution.set_eventManager (alter (set_status state) eventId) w))
          [PatchEvent eventId state (Resolution.clock w);
           CacheDelete ("event:" +:+ eventId);
           LogInfo ("Updated event " +:+ eventId +:+ " state to: " +:+ state)]
    | Reject msg =>
        mkOutcome (Err (PeerError msg)) w [PatchEvent eventId state (Resolution.clock w)]
    end.
Proof.
  unfold Resolution.updateEventState, Resolution.cacheService_delete. mstep.
  destruct (Resolution.patchEvent P eventId state); by mstep.
Qed.

Lemma blockchain_settleEvent_run (P : Resolution.Peers) (eventId : string)
    (w : Resolution.World) :
  Resolution.blockchain_settleEvent P eventId w =
    match Resolution.oracleRegistry P with
    | None =>
        mkOutcome (Err (ContractNotLoaded "Oracle registry not loaded")) w
          [LogError ("Failed to settle event: " +:+ "Oracle registry not loaded")]
    | Some contract =>
        match contract eventId with
        | Reply hash =>
            mkOutcome (Ok hash) w
              [TxSettleEvent eventId;
               LogInfo ("Event settled: " +:+ eventId +:+ ", tx: " +:+ hash)]
        | Reject msg =>
            mkOutcome (Err (PeerError msg)) w
              [TxSettleEvent eventId; LogError ("Failed to settle event: " +:+ msg)]
        end
    end.
Proof.
  unfold Resolution.blockchain_settleEvent. rewrite try_catch_run.
  destruct (Resolution.oracleRegistry P) as [contract|]; [|by mstep].
  mstep. destruct (contract eventId); by mstep.
Qed.

Lemma fetchProposalData_frame (P : Resolution.Peers) (proposalId : string)
    (w : Resolution.World) :
  let o := Resolution.fetchProposalData P proposalId w in
  Resolution.clock (final o) = Resolution.clock w ∧
  Resolution.eventManager (final o) = Resolution.eventManager w ∧
  Resolution.livenessQueue (final o) = Resolution.livenessQueue w ∧
  Resolution.settlementQueue (final o) = Resolution.settlementQueue w ∧
  Forall (λ e, is_read e = true) (effects o).
Proof.
  simpl. rewrite fetchProposalData_run.
  destruct (Cache.get _ _ _); [by repeat split|].
  destruct (Resolution.getProposal P proposalId); simpl;
    repeat split; by repeat constructor.
Qed.

Lemma requests_app (l1 l2 : list Effect) :
  requests (l1 ++ l2) = (requests l1 ++ requests l2)%list.
Proof. apply filter_app. Qed.

Lemma requests_cons (e : Effect) (l : list Effect) :
  requests (e :: l) = if is_log e then requests l else e :: requests l.
Proof. unfold requests. rewrite filter_cons. by destruct (is_log e). Qed.

Ltac requests_eq :=
  repeat (rewrite ?requests_app, ?requests_cons; simpl); reflexivity.

(** *** Replay of an event *)

Lemma processEvent_run (eventId : string) (w : Resolution.World) :
  Resolution.processEvent eventId w =
    match Resolution.fetchEventData eventId w with
    | mkOutcome (Ok event) w1 eff1 =>
        if StateMachine.canTransition (W:=Resolution.World) (status event) (status event)
        then
          mkOutcome (Ok (replayed eventId event (Resolution.clock w1))) w1
            (LogInfo ("Processing event resolution: " +:+ eventId) :: eff1 ++
             [LogInfo ("State transition: " +:+ status event +:+ " -> " +:+ status event)])
        else
          mkOutcome (Err (InvalidTransition (status event) (status event))) w1
            (LogInfo ("Processing event resolution: " +:+ eventId) :: (eff1 ++ []) ++
             [LogError ("Failed to process event " +:+ eventId +:+ ": " +:+
                        message (InvalidTransition (status event) (status event)))])
    | mkOutcome (Err e) w1 eff1 =>
        mkOutcome (Err e) w1
          (LogInfo ("Processing event resolution: " +:+ eventId) :: eff1 ++
           [LogError ("Failed to process event " +:+ eventId +:+ ": " +:+ message e)])
    end.
Proof.
  unfold Resolution.processEvent. mstep.
  destruct (Resolution.fetchEventData eventId w) as [[event|e] w1 eff1]; simpl; [|done].
  mstep. unfold Resolution.with_object. rewrite transition_source. simpl.
  destruct (StateMachine.canTransition _ _); reflexivity.
Qed.

(** After a fetch that returned, the cache holds a copy of the record the
    fetch returned. *)
Lemma fetchEventData_entry (eventId : string) (w : Resolution.World) (event : Doc) :
  result (Resolution.fetchEventData eventId w) = Ok event →
  ∃ e, Resolution.cache (final (Resolution.fetchEventData eventId w))
         !! ("event:" +:+ eventId) = Some e ∧
       Cache.value e = event.
Proof.
  rewrite (fetchEventData_run eventId w). unfold Cache.get.
  destruct (Resolution.cache w !! ("event:" +:+ eventId)) as [e|] eqn:Hc;
    [destruct (Cache.live _ e)|]; simpl.
  - intros [= <-]. by exists e.
  - destruct (Resolution.eventManager w !! eventId) as [d|]; simpl; [|discriminate].
    intros [= ->]. eexists. unfold Cache.set. by rewrite lookup_insert_eq.
  - destruct (Resolution.eventManager w !! eventId) as [d|]; simpl; [|discriminate].
    intros [= ->]. eexists. unfold Cache.set. by rewrite lookup_insert_eq.
Qed.

(** A fetch repeated later, the upstream record being the one fetched, on a
    cache that may have dropped entries, returns the same record: from the
    cache, or from the event manager again. *)
Lemma fetchEventData_again (eventId : string) (w w2 : Resolution.World) (event : Doc) :
  result (Resolution.fetchEventData eventId w) = Ok event →
  Resolution.eventManager w !! eventId = Some event →
  Resolution.eventManager w2 = Resolution.eventManager w →
  evicted (Resolution.cache w2)
    (Resolution.cache (final (Resolution.fetchEventData eventId w))) →
  Resolution.fetchEventData eventId w2 =
    match Cache.get (Resolution.clock w2) ("event:" +:+ eventId) (Resolution.cache w2) with
    | Some _ => mkOutcome (Ok event) w2 []
    | None =>
        mkOutcome (Ok event)
          (Resolution.set_cache
             (Cache.set (Resolution.clock w2) ("event:" +:+ eventId) event 300) w2)
          [GetEvent eventId; CacheSet ("event:" +:+ eventId)]
    end.
Proof.
  intros Hfetch Hup Hem Hsub.
  destruct (fetchEventData_entry eventId w event Hfetch) as (e & He & Hv).
  rewrite (fetchEventData_run eventId w2), Hem, Hup.
  unfold Cache.get.
  destruct (Resolution.cache w2 !! ("event:" +:+ eventId)) as [e'|] eqn:Hc; [|done].
  pose proof (lookup_weaken _ _ _ _ Hc Hsub) as He'.
  rewrite He in He'. injection He' as <-.
  destruct (Cache.live _ e); [by rewrite Hv|done].
Qed.

(** C5 (amended).  For an event that the fetch returns, [processEvent]
    returns exactly when the state machine accepts the replay transition from
    the event's status to itself; the context it returns carries that status
    as [currentState] and the clock reading of the call as [timestamp];
    otherwise it throws InvalidTransition.  The call sends reads and log
    lines only and leaves the event records and the queues alone.  A second
    call, made at any time with the upstream records unchanged, the record
    fetched first being the upstream one, and whatever the cache has kept of
    its entries in between, ends as the first did: the same error, or a
    context that agrees with the first in every field but [timestamp], which
    is the clock reading of the second call.  It sends nothing when the cache
    still serves the entry, and one GET to the event manager and one cache
    fill when it does not; the event records and the queues are again left
    alone. *)
Theorem processEvent_replay (eventId : string) (w : Resolution.World) (event : Doc) :
  result (Resolution.fetchEventData eventId w) = Ok event →
  let o := Resolution.processEvent eventId w in
  let outcome now :=
    if StateMachine.canTransition (W:=Resolution.World) (status event) (status event)
    then Ok (replayed eventId event now)
    else Err (InvalidTransition (status event) (status event)) in
  result o = outcome (Resolution.clock w) ∧
  Forall (λ e, is_read e = true) (effects o) ∧
  Resolution.eventManager (final o) = Resolution.eventManager w ∧
  Resolution.livenessQueue (final o) = Resolution.livenessQueue w ∧
  Resolution.settlementQueue (final o) = Resolution.settlementQueue w ∧
  (Resolution.eventManager w !! eventId = Some event →
   ∀ w2,
     Resolution.eventManager w2 = Resolution.eventManager w →
     evicted (Resolution.cache w2) (Resolution.cache (final o)) →
     let o2 := Resolution.processEvent eventId w2 in
     result o2 = outcome (Resolution.clock w2) ∧
     requests (effects o2) =
       match Cache.get (Resolution.clock w2) ("event:" +:+ eventId)
               (Resolution.cache w2) with
       | Some _ => []
       | None => [GetEvent eventId; CacheSet ("event:" +:+ eventId)]
       end ∧
     Resolution.eventManager (final o2) = Resolution.eventManager w2 ∧
     Resolution.livenessQueue (final o2) = Resolution.livenessQueue w2 ∧
     Resolution.settlementQueue (final o2) = Resolution.settlementQueue w2).
Proof.
  intros Hfetch. cbv zeta.
  destruct (fetchEventData_frame eventId w) as (Hclock & Hem & Hlq & Hsq & _ & Hread).
  assert (Hfinal : final (Resolution.processEvent eventId w) =
                   final (Resolution.fetchEventData eventId w)).
  { rewrite processEvent_run.
    destruct (Resolution.fetchEventData eventId w) as [[ev|e] w1 eff1]; [|done].
    by destruct (StateMachine.canTransition _ _). }
  rewrite Hfinal. split; [|split; [|split; [|split; [|split]]]]; try done.
  - rewrite processEvent_run.
    destruct (Resolution.fetchEventData eventId w) as [[ev|e] w1 eff1]; simpl in *;
      [injection Hfetch as ->|discriminate].
    rewrite Hclock. by destruct (StateMachine.canTransition _ _).
  - rewrite processEvent_run.
    destruct (Resolution.fetchEventData eventId w) as [[ev|e] w1 eff1]; simpl in *;
      [injection Hfetch as ->|discriminate].
    destruct (StateMachine.canTransition _ _); simpl.
    + constructor; [done|]. apply Forall_app. split; [done|]. by repeat constructor.
    + constructor; [done|]. rewrite app_nil_r. apply Forall_app.
      split; [done|]. by repeat constructor.
  - intros Hup w2 Hem2 Hsub.
    rewrite processEvent_run,
      (fetchEventData_again eventId w w2 event Hfetch Hup Hem2 Hsub).
    destruct (Cache.get _ _ _), (StateMachine.canTransition _ _); simpl;
      repeat split; requests_eq.
Qed.

Lemma processEvent_replay_witness :
  let w := Scenario.world 1000 "liveness" in
  let w2 := Resolution.set_clock 2000
              (Resolution.set_cache (λ _, ∅) (final (Resolution.processEvent "e1" w))) in
  result (Resolution.processEvent "e1" w) =
    Ok (replayed "e1" (Scenario.event_e1 "liveness") 1000) ∧
  result (Resolution.processEvent "e1" w2) =
    Ok (replayed "e1" (Scenario.event_e1 "liveness") 2000) ∧
  requests (effects (Resolution.processEvent "e1" w2)) =
    [GetEvent "e1"; CacheSet "event:e1"].
Proof.
  cbv zeta.
  pose proof (processEvent_replay "e1" (Scenario.world 1000 "liveness")
                (Scenario.event_e1 "liveness") eq_refl) as (H1 & _ & _ & _ & _ & H2).
  split; [exact H1|].
  destruct (H2 eq_refl
              (Resolution.set_clock 2000
                 (Resolution.set_cache (λ _, ∅)
                    (final (Resolution.processEvent "e1" (Scenario.world 1000 "liveness")))))
              eq_refl (map_empty_subseteq _)) as (H3 & H4 & _).
  split; [exact H3|exact H4].
Defined.

(** C5 as the claim has it is refuted.  For an event in state "settled",
    with the upstream record untouched, [processEvent] throws
    InvalidTransition instead of returning a context; and for an event in
    state "liveness" two calls one millisecond apart return contexts that
    differ in [timestamp]. *)
Lemma processEvent_settled_throws :
  result (Resolution.fetchEventData "e1" (Scenario.world 1000 "settled")) =
    Ok (Scenario.event_e1 "settled") ∧
  result (Resolution.processEvent "e1" (Scenario.world 1000 "settled")) =
    Err (InvalidTransition "settled" "settled") ∧
  let o1 := Resolution.processEvent "e1" (Scenario.world 1000 "liveness") in
  let o2 := Resolution.processEvent "e1" (Resolution.set_clock 1001 (final o1)) in
  Resolution.eventManager (final o1) =
    Resolution.eventManager (Scenario.world 1000 "liveness") ∧
  result o1 = Ok (replayed "e1" (Scenario.event_e1 "liveness") 1000) ∧
  result o2 = Ok (replayed "e1" (Scenario.event_e1 "liveness") 1001).
Proof. vm_compute. repeat split. Qed.

(** *** Cache purge at settlement *)

Lemma delete_loop (ks : list string) (w : Resolution.World) (k : string) :
  Resolution.cache w !! k = None →
  let o := for_of ks Resolution.cacheService_delete w in
  result o = Ok tt ∧ Resolution.cache (final o) !! k = None.
Proof.
  revert w. induction ks as [|k' ks IH]; intros w Hk; simpl; [done|].
  unfold Resolution.cacheService_delete at 1. mstep.
  specialize (IH (Resolution.set_cache (Cache.del k') w)). simpl in IH.
  destruct (for_of ks _ _) as [r w' eff]; simpl in *.
  apply IH. unfold Cache.del. by apply lookup_delete_None; right.
Qed.

Lemma cleanupEventData_run (eventId : string) (w : Resolution.World) :
  let o := Resolution.cleanupEventData eventId w in
  result o = Ok tt ∧ Resolution.cache (final o) !! ("event:" +:+ eventId) = None.
Proof.
  unfold Resolution.cleanupEventData, Resolution.cacheService_delete at 1,
    Resolution.cacheService_keys.
  mstep.
  pose proof (delete_loop
    (Cache.keys (Resolution.clock w) ("proposal:*:" +:+ eventId)
       (Cache.del ("event:" +:+ eventId) (Resolution.cache w)))
    (Resolution.set_cache (Cache.del ("event:" +:+ eventId)) w)
    ("event:" +:+ eventId)) as Hloop.
  simpl in Hloop. destruct (for_of _ _ _) as [r w' eff]; simpl in *.
  destruct Hloop as [-> Hnone]; [apply lookup_delete_eq|]. by mstep.
Qed.

(** The half of the purge that the code does achieve: once [settleEvent] has
    returned, the key of the event is a miss. *)
Lemma settleEvent_purges_event_key (P : Resolution.Peers) (eventId : string)
    (w : Resolution.World) (now : Z) :
  let o := Resolution.settleEvent P eventId w in
  result o = Ok tt →
  Cache.get now ("event:" +:+ eventId) (Resolution.cache (final o)) = None.
Proof.
  simpl. unfold Resolution.settleEvent. mstep.
  destruct (Resolution.fetchEventData eventId w) as [[event|e] w1 eff1]; simpl;
    [|discriminate].
  destruct (negb _); mstep; [discriminate|].
  destruct (Resolution.blockchain_settleEvent P eventId w1) as [[hash|e] w2 eff2];
    mstep; [|discriminate].
  destruct (Resolution.distributeRewards P eventId w2) as [[[]|e] w3 eff3];
    mstep; [|discriminate].
  destruct (Resolution.updateEventState P eventId "settled" w3) as [[[]|e] w4 eff4];
    mstep; [|discriminate].
  pose proof (cleanupEventData_run eventId w4) as [Hr Hnone]. simpl in *.
  destruct (Resolution.cleanupEventData eventId w4) as [[[]|e] w5 eff5];
    simpl in *; [|discriminate].
  intros _. unfold Cache.get. by rewrite Hnone.
Qed.

(** C7 (the code departs from the claim).  Proposal [p1] of event [e1] is
    cached by [fetchProposalData] under the key proposal:p1.  After
    [settleEvent] has returned for [e1], the key event:e1 is a miss, but the
    entry of [p1] is still served: the pattern proposal:*:e1 that the cleanup
    scans matches no key that the engine writes. *)
Theorem cleanup_leaves_proposal_entry :
  let P := Scenario.peers [] (Reply tt) in
  let w := final (Resolution.fetchProposalData P "p1" (Scenario.world 0 "resolved")) in
  let o := Resolution.settleEvent P "e1" w in
  result o = Ok tt ∧
  status <$> Resolution.eventManager (final o) !! "e1" = Some "settled" ∧
  Cache.get (Resolution.clock (final o)) "event:e1" (Resolution.cache (final o)) = None ∧
  Cache.keys (Resolution.clock w) "proposal:*:e1" (Resolution.cache w) = [] ∧
  Cache.get (Resolution.clock (final o)) "proposal:p1" (Resolution.cache (final o)) =
    Some Scenario.proposal_p1 ∧
  doc_eventId Scenario.proposal_p1 = "e1".
Proof. vm_compute. repeat split. Qed.

(** *** Best-effort side channels: the parent operations *)

Lemma delete_loop_frame (ks : list string) (w : Resolution.World) :
  let o := for_of ks Resolution.cacheService_delete w in
  Resolution.clock (final o) = Resolution.clock w ∧
  Resolution.eventManager (final o) = Resolution.eventManager w ∧
  Resolution.livenessQueue (final o) = Resolution.livenessQueue w ∧
  Resolution.settlementQueue (final o) = Resolution.settlementQueue w.
Proof.
  revert w. induction ks as [|k ks IH]; intros w; simpl; [done|].
  unfold Resolution.cacheService_delete at 1. mstep.
  specialize (IH (Resolution.set_cache (Cache.del k) w)). simpl in IH.
  by destruct (for_of ks _ _) as [r w' eff].
Qed.

Lemma cleanupEventData_frame (eventId : string) (w : Resolution.World) :
  let o := Resolution.cleanupEventData eventId w in
  Resolution.clock (final o) = Resolution.clock w ∧
  Resolution.eventManager (final o) = Resolution.eventManager w ∧
  Resolution.livenessQueue (final o) = Resolution.livenessQueue w ∧
  Resolution.settlementQueue (final o) = Resolution.settlementQueue w.
Proof.
  unfold Resolution.cleanupEventData, Resolution.cacheService_delete at 1,
    Resolution.cacheService_keys.
  mstep.
  match goal with |- context [for_of ?ks _ ?w1] =>
    pose proof (delete_loop_frame ks w1) as Hloop end.
  simpl in Hloop. destruct (for_of _ _ _) as [[[]|e] w' eff]; by mstep.
Qed.

(** C9.  The reward POST and the arbitrator notification never throw: a
    rejection is logged as an error and the helper returns, leaving the world
    as it was.  Hence the outcome of [settleEvent] does not depend on what
    the reward service answers, nor that of [handleDisputeDetected] on what
    the notification service answers: same result, same final world and the
    same requests sent.  And the parent carries on with its remaining steps.
    After a rejected reward POST, [settleEvent] logs the error and sends the
    PATCH to "settled"; if the event manager accepts it, the cache copy is
    dropped, the cleanup is run on the world so written, and the call
    returns; if not, the call throws the error of the PATCH, not that of the
    reward service.  After a rejected notification, [handleDisputeDetected]
    logs the error, cancels the liveness timers of the proposal and
    returns. *)
Theorem best_effort_failures_not_propagated (P : Resolution.Peers)
    (w : Resolution.World) :
  (∀ eventId,
     result (Resolution.distributeRewards P eventId w) = Ok tt ∧
     final (Resolution.distributeRewards P eventId w) = w ∧
     ∀ msg, Resolution.postDistribute P eventId = Reject msg →
       LogError ("Failed to distribute rewards: " +:+ msg)
         ∈ effects (Resolution.distributeRewards P eventId w)) ∧
  (∀ proposalId disputeData,
     result (Resolution.notifyArbitrators P proposalId disputeData w) = Ok tt ∧
     final (Resolution.notifyArbitrators P proposalId disputeData w) = w ∧
     ∀ msg, Resolution.postNotifyArbitrators P proposalId disputeData = Reject msg →
       LogError ("Failed to notify arbitrators: " +:+ msg)
         ∈ effects (Resolution.notifyArbitrators P proposalId disputeData w)) ∧
  (∀ eventId answer,
     let o := Resolution.settleEvent P eventId w in
     let o' := Resolution.settleEvent (with_postDistribute answer P) eventId w in
     result o' = result o ∧ final o' = final o ∧
     requests (effects o') = requests (effects o)) ∧
  (∀ proposalId disputeData answer,
     let o := Resolution.handleDisputeDetected P proposalId disputeData w in
     let o' := Resolution.handleDisputeDetected (with_postNotifyArbitrators answer P)
                 proposalId disputeData w in
     result o' = result o ∧ final o' = final o ∧
     requests (effects o') = requests (effects o)) ∧
  (∀ eventId event contract hash msg,
     result (Resolution.fetchEventData eventId w) = Ok event →
     status event = "resolved" →
     Resolution.oracleRegistry P = Some contract → contract eventId = Reply hash →
     Resolution.postDistribute P eventId = Reject msg →
     let o := Resolution.settleEvent P eventId w in
     let fetched := Resolution.fetchEventData eventId w in
     let written :=
       Resolution.set_cache (Cache.del ("event:" +:+ eventId))
         (Resolution.set_eventManager (alter (set_status "settled") eventId)
            (final fetched)) in
     let so_far :=
       (LogInfo ("Settling event: " +:+ eventId) :: effects fetched ++
        [TxSettleEvent eventId;
         LogInfo ("Event settled: " +:+ eventId +:+ ", tx: " +:+ hash);
         PostDistribute eventId;
         LogError ("Failed to distribute rewards: " +:+ msg);
         PatchEvent eventId "settled" (Resolution.clock w)])%list in
     match Resolution.patchEvent P eventId "settled" with
     | Reply _ =>
         result o = Ok tt ∧
         final o = final (Resolution.cleanupEventData eventId written) ∧
         effects o =
           (so_far ++
            [CacheDelete ("event:" +:+ eventId);
             LogInfo ("Updated event " +:+ eventId +:+ " state to: " +:+ "settled")] ++
            effects (Resolution.cleanupEventData eventId written))%list ∧
         Resolution.eventManager (final o) =
           alter (set_status "settled") eventId (Resolution.eventManager w) ∧
         Resolution.cache (final o) !! ("event:" +:+ eventId) = None
     | Reject msg' =>
         result o = Err (PeerError msg') ∧
         final o = final fetched ∧
         effects o = (so_far ++ [LogError ("Failed to settle event: " +:+ msg')])%list
     end) ∧
  (∀ proposalId disputeData proposal msg,
     result (Resolution.fetchProposalData P proposalId w) = Ok proposal →
     Resolution.patchEvent P (doc_eventId proposal) "disputed" = Reply tt →
     Resolution.postNotifyArbitrators P proposalId disputeData = Reject msg →
     let o := Resolution.handleDisputeDetected P proposalId disputeData w in
     let fetched := Resolution.fetchProposalData P proposalId w in
     let written :=
       Resolution.set_cache (Cache.del ("event:" +:+ doc_eventId proposal))
         (Resolution.set_eventManager
            (alter (set_status "disputed") (doc_eventId proposal)) (final fetched)) in
     result o = Ok tt ∧
     final o = final (Resolution.pauseLivenessMonitoring proposalId written) ∧
     effects o =
       (LogInfo ("Handling dispute for proposal: " +:+ proposalId) :: effects fetched ++
        [PatchEvent (doc_eventId proposal) "disputed" (Resolution.clock w);
         CacheDelete ("event:" +:+ doc_eventId proposal);
         LogInfo ("Updated event " +:+ doc_eventId proposal +:+ " state to: " +:+
                  "disputed");
         PostNotifyArbitrators proposalId disputeData;
         LogError ("Failed to notify arbitrators: " +:+ msg)] ++
        effects (Resolution.pauseLivenessMonitoring proposalId written))%list ∧
     ∀ j, j ∈ Bull.jobs (Resolution.livenessQueue (final o)) →
          ¬ outstanding proposalId j).
Proof.
  split; [|split; [|split; [|split; [|split]]]].

  - intros eventId. rewrite distributeRewards_run.
    destruct (Resolution.postDistribute P eventId) as [[]|msg]; simpl.
    + by repeat split.
    + repeat split. intros ? [= <-]. in_explicit_list.
  - intros proposalId disputeData. rewrite notifyArbitrators_run.
    destruct (Resolution.postNotifyArbitrators P proposalId disputeData) as [[]|msg]; simpl.
    + by repeat split.
    + repeat split. intros ? [= <-]. in_explicit_list.
  - intros eventId answer. simpl.
    unfold Resolution.settleEvent. mstep.
    destruct (Resolution.fetchEventData eventId w) as [[event|e] w1 eff1]; simpl; [|done].
    destruct (negb _); simpl; [done|]. mstep.
    change (Resolution.blockchain_settleEvent (with_postDistribute answer P))
      with (Resolution.blockchain_settleEvent P).
    destruct (Resolution.blockchain_settleEvent P eventId w1) as [[hash|e] w2 eff2];
      simpl; [|done].
    mstep. rewrite !distributeRewards_run. simpl.
    destruct (answer eventId) as [[]|m1], (Resolution.postDistribute P eventId) as [[]|m2];
      mstep;
      change (Resolution.updateEventState (with_postDistribute answer P))
        with (Resolution.updateEventState P);
      (destruct (Resolution.updateEventState P eventId "settled" w2) as [[[]|e] w3 eff3];
       [mstep; destruct (Resolution.cleanupEventData eventId w3) as [[[]|e] w4 eff4]|]);
      simpl; repeat split; requests_eq.
  - intros proposalId disputeData answer. simpl.
    unfold Resolution.handleDisputeDetected. mstep.
    change (Resolution.fetchProposalData (with_postNotifyArbitrators answer P))
      with (Resolution.fetchProposalData P).
    destruct (Resolution.fetchProposalData P proposalId w) as [[proposal|e] w1 eff1];
      simpl; [|done].
    mstep.
    change (Resolution.updateEventState (with_postNotifyArbitrators answer P))
      with (Resolution.updateEventState P).
    destruct (Resolution.updateEventState P _ "disputed" w1) as [[[]|e] w2 eff2];
      simpl; [|done].
    mstep. rewrite !notifyArbitrators_run. simpl.
    destruct (answer proposalId disputeData) as [[]|m1],
             (Resolution.postNotifyArbitrators P proposalId disputeData) as [[]|m2];
      mstep;
      destruct (Resolution.pauseLivenessMonitoring proposalId w2) as [[[]|e] w3 eff3];
      simpl; repeat split; requests_eq.
  - intros eventId event contract hash msg Hfetch Hst Hreg Htx Hpost. cbv zeta.
    destruct (fetchEventData_frame eventId w) as (Hclock & Hem & _ & _ & _ & _).
    unfold Resolution.settleEvent. mstep.
    destruct (Resolution.fetchEventData eventId w) as [[ev|e] w1 eff1]; simpl in *;
      [injection Hfetch as ->|discriminate].
    rewrite Hst. mstep. rewrite blockchain_settleEvent_run, Hreg, Htx. mstep.
    rewrite distributeRewards_run, Hpost. mstep. rewrite updateEventState_run, Hclock.
    destruct (Resolution.patchEvent P eventId "settled") as [[]|msg']; mstep.
    + match goal with |- context [Resolution.cleanupEventData eventId ?w2] =>
        pose proof (cleanupEventData_run eventId w2) as [Hr Hnone];
        pose proof (cleanupEventData_frame eventId w2) as (_ & Hem' & _ & _) end.
      destruct (Resolution.cleanupEventData eventId _) as [[[]|e] w3 eff3];
        simpl in *; [|discriminate].
      repeat split; [|by rewrite Hem', Hem|done].
      by rewrite <- !app_assoc.
    + repeat split; by rewrite <- ?app_assoc.
  - intros proposalId disputeData proposal msg Hfetch Hpatch Hpost. cbv zeta.
    pose proof (fetchProposalData_clock P proposalId w) as Hclock.
    unfold Resolution.handleDisputeDetected. mstep.
    destruct (Resolution.fetchProposalData P proposalId w) as [[pr|e] w1 eff1];
      simpl in *; [injection Hfetch as ->|discriminate].
    mstep. rewrite updateEventState_run, Hpatch, Hclock. mstep.
    rewrite notifyArbitrators_run, Hpost. mstep.
    match goal with |- context [Resolution.pauseLivenessMonitoring proposalId ?w2] =>
      pose proof (pauseLivenessMonitoring_spec proposalId w2) as [Hr Hgone] end.
    destruct (Resolution.pauseLivenessMonitoring proposalId _) as [[[]|e] w3 eff3];
      simpl in *; [|discriminate].
    repeat split; try done; by rewrite <- ?app_assoc.
Qed.

Lemma best_effort_failures_not_propagated_witness :
  let P := Scenario.peers [] (Reject "503") in
  LogError ("Failed to distribute rewards: " +:+ "503")
    ∈ effects (Resolution.distributeRewards P "e1" (Scenario.world 0 "resolved")) ∧
  result (Resolution.settleEvent
            (with_postDistribute (λ _, Reject "503") (Scenario.peers [] (Reply tt)))
            "e1" (Scenario.world 0 "resolved")) = Ok tt ∧
  (result (Resolution.settleEvent P "e1" (Scenario.world 0 "resolved")) = Ok tt ∧
   status <$> Resolution.eventManager
     (final (Resolution.settleEvent P "e1" (Scenario.world 0 "resolved"))) !! "e1" =
     Some "settled") ∧
  (result (Resolution.handleDisputeDetected P "p1" "evidence" Scenario.world_with_timers) =
     Ok tt ∧
   ∀ j, j ∈ Bull.jobs (Resolution.livenessQueue
              (final (Resolution.handleDisputeDetected P "p1" "evidence"
                        Scenario.world_with_timers))) →
        ¬ outstanding "p1" j).
Proof.
  cbv zeta.
  pose proof (best_effort_failures_not_propagated (Scenario.peers [] (Reject "503"))
                (Scenario.world 0 "resolved")) as (H1 & _ & _ & _ & H5 & _).
  pose proof (best_effort_failures_not_propagated (Scenario.peers [] (Reply tt))
                (Scenario.world 0 "resolved")) as (_ & _ & H3 & _).
  pose proof (best_effort_failures_not_propagated (Scenario.peers [] (Reject "503"))
                Scenario.world_with_timers) as (_ & _ & _ & _ & _ & H6).
  split; [apply (H1 "e1"); reflexivity|].
  split; [destruct (H3 "e1" (λ _, Reject "503")) as (-> & _); reflexivity|].
  split.
  - pose proof (H5 "e1" (Scenario.event_e1 "resolved") (λ _, Reply "0x5e") "0x5e" "503"
                  eq_refl eq_refl eq_refl eq_refl eq_refl) as H.
    simpl in H. destruct H as (Hr & _ & _ & Hem & _).
    split; [exact Hr|]. rewrite Hem. reflexivity.
  - destruct (H6 "p1" "evidence" Scenario.proposal_p1 "503" eq_refl eq_refl eq_refl)
      as (Hr & _ & _ & Hgone).
    split; [exact Hr|exact Hgone].
Defined.

(** ** The indexer *)

Lemma handleEventCreated_run (C : Indexer.Chain) (l : EventLog)
    (s : Indexer.IndexerService) :
  Indexer.handleEventCreated C l s =
    if Indexer.serializable l then
      match Indexer.postBlockchainEvent C l with
      | Reply _ =>
          mkOutcome (Ok tt) s
            [PostBlockchainEvent l; LogInfo ("Indexed event: " +:+ log_eventId l)]
      | Reject msg =>
          mkOutcome (Ok tt) s
            [PostBlockchainEvent l; LogError ("Failed to handle event: " +:+ msg)]
      end
    else
      mkOutcome (Ok tt) s
        [LogError ("Failed to handle event: " +:+ "Do not know how to serialize a BigInt")].
Proof.
  unfold Indexer.handleEventCreated, Indexer.httpService_post. mstep.
  destruct (Indexer.serializable l); mstep; [|done].
  destruct (Indexer.postBlockchainEvent C l); reflexivity.
Qed.

(** The batch loop takes every log in turn and always runs to its end: a
    log whose body serializes is posted, whatever the answer; for any other
    log nothing is sent. *)
Lemma handle_batch (C : Indexer.Chain) (logs : list EventLog)
    (s : Indexer.IndexerService) :
  let o := for_of logs (Indexer.handleEventCreated C) s in
  result o = Ok tt ∧ final o = s ∧
  requests (effects o) =
    PostBlockchainEvent <$> filter (λ l, Indexer.serializable l = true) logs.
Proof.
  induction logs as [|l logs IH]; simpl; [done|].
  rewrite bind_run, handleEventCreated_run, filter_cons. simpl in IH.
  destruct (Indexer.serializable l); [destruct (Indexer.postBlockchainEvent C l)|]; simpl;
    destruct (for_of logs _ s) as [r s' eff]; simpl in *;
    destruct IH as (-> & -> & Heff); repeat split;
    rewrite ?requests_cons; simpl; by rewrite ?Heff.
Qed.





(** * Further properties of the code *)

Arguments Resolution.scheduleLivenessMonitoring : simpl never.
Arguments Resolution.finalizeProposal : simpl never.
Arguments Resolution.settleEvent : simpl never.
Arguments Resolution.processEvent : simpl never.
Arguments Resolution.handleDisputeDetected : simpl never.
Arguments Submission.blockchain_submitProposal : simpl never.
Arguments Indexer.indexNewBlocks : simpl never.

(** ** state-machine.service.ts *)

Lemma transitions_keys {W : Type} (target : string)
    (l : list (StateMachine.StateTransition W)) :
  StateMachine.transitions !! target = Some l → target ∈ keyed_states ∧ l ≠ [].
Proof.
  unfold StateMachine.transitions. intros H%elem_of_list_to_map_2.
  repeat (apply elem_of_cons in H as [H|H];
          [injection H as -> ->; split; [unfold keyed_states; in_explicit_list|done]|]).
  by apply elem_of_nil in H.
Qed.

Lemma canTransition_keyed {W : Type} (current target : string) :
  StateMachine.canTransition (W:=W) current target = true ↔
  current = target ∧ target ∈ keyed_states.
Proof.
  unfold StateMachine.canTransition. rewrite find_existsb, bool_decide_eq_true. split.
  - intros [t Hfind]. destruct (find_some _ _ Hfind) as [Hin Hfrom].
    apply list_elem_of_In in Hin.
    destruct (validTransitions_source target t Hin) as (Hf & _ & _).
    unfold StateMachine.from_includes in Hfrom. rewrite Hf in Hfrom.
    apply bool_decide_eq_true_1, list_elem_of_singleton in Hfrom. split; [done|].
    unfold StateMachine.validTransitions in Hin.
    destruct (StateMachine.transitions !! target) as [l|] eqn:E; simpl in Hin.
    + by apply transitions_keys in E as [? _].
    + by apply elem_of_nil in Hin.
  - intros [-> Hkey]. unfold keyed_states in Hkey.
    repeat (apply elem_of_cons in Hkey as [->|Hkey]; [by vm_compute; eexists|]).
    by apply elem_of_nil in Hkey.
Qed.

(** X1.  [canTransition], over all strings and not only the ten states:
    it answers true exactly for a pair whose two states are the same and are
    one of the seven states with an entry in the table.  A target that the
    table does not know, or that only occurs as a destination, is refused
    from every state. *)
Theorem canTransition_accepts_keyed_self_loops (current target : string) :
  (StateMachine.canTransition (W:=unit) current target = true ↔
     current = target ∧ target ∈ keyed_states) ∧
  (target ∉ keyed_states →
     ∀ c, StateMachine.canTransition (W:=unit) c target = false).
Proof.
  split; [apply canTransition_keyed|].
  intros Hnot c. apply not_true_is_false. by intros [_ ?]%canTransition_keyed.
Qed.

Lemma canTransition_accepts_keyed_self_loops_witness :
  StateMachine.canTransition (W:=unit) "resolved" "settled" = false.
Proof.
  apply (proj2 (canTransition_accepts_keyed_self_loops "resolved" "settled")).
  unfold keyed_states. intros H.
  repeat (apply elem_of_cons in H as [H|H]; [discriminate H|]).
  by apply elem_of_nil in H.
Defined.

(** X2.  [transition] and [canTransition] agree: over the source's table the
    transition returns exactly when [canTransition] answers true, and it
    throws InvalidTransition otherwise.  In both cases the context object
    and the rest of the state come out as they went in: an accepted
    transition assigns to [currentState] the value it already has. *)
Theorem transition_agrees_with_canTransition {W : Type} (target : string)
    (context : ResolutionContext) (w : W) :
  let o := StateMachine.transition target (context, w) in
  (result o = Ok tt ↔
     StateMachine.canTransition (W:=W) (currentState context) target = true) ∧
  (result o ≠ Ok tt →
     result o = Err (InvalidTransition (currentState context) target)) ∧
  final o = (context, w).
Proof.
  simpl. rewrite transition_source.
  destruct (StateMachine.canTransition _ _) eqn:Hcan; simpl.
  - apply canTransition_keyed in Hcan as [Hsame _].
    repeat split; try done. rewrite <- Hsame. by destruct context.
  - by repeat split.
Qed.

Lemma transition_agrees_with_canTransition_witness :
  result (StateMachine.transition "liveness" (Scenario.ctx_in "proposing", tt)) =
    Err (InvalidTransition "proposing" "liveness").
Proof.
  apply (transition_agrees_with_canTransition "liveness" (Scenario.ctx_in "proposing") tt).
  discriminate.
Defined.

(** ** resolution.service.ts: cache-through reads and the state write *)

(** X3.  [fetchEventData] is a read-through with a time to live of 300
    seconds over a cache that may drop entries.  After a miss has been filled
    from the event manager, a later fetch returns the cached record, with no
    request at all and whatever the event manager holds by then, only if it is
    made less than 300 000 ms after the fill and the cache has kept the entry.
    In every other case, at 300 000 ms or later or with the entry dropped, the
    fetch goes back to the event manager: it returns the current record and
    fills the cache again, or throws the 404 of a record that is gone. *)
Theorem fetchEventData_stale_for_at_most_300s (eventId : string)
    (w : Resolution.World) (d : Doc) (records : gmap string Doc)
    (kept : gmap string Cache.Entry) (t : Z) :
  Cache.get (Resolution.clock w) ("event:" +:+ eventId) (Resolution.cache w) = None →
  Resolution.eventManager w !! eventId = Some d →
  let filled := final (Resolution.fetchEventData eventId w) in
  evicted kept (Resolution.cache filled) →
  let later := Resolution.set_clock t
                 (Resolution.set_cache (λ _, kept)
                    (Resolution.set_eventManager (λ _, records) filled)) in
  let o := Resolution.fetchEventData eventId later in
  ((t < Resolution.clock w + 300000)%Z ∧ is_Some (kept !! ("event:" +:+ eventId)) →
     o = mkOutcome (Ok d) later []) ∧
  ((Resolution.clock w + 300000 ≤ t)%Z ∨ kept !! ("event:" +:+ eventId) = None →
     match records !! eventId with
     | Some d' =>
         result o = Ok d' ∧
         effects o = [GetEvent eventId; CacheSet ("event:" +:+ eventId)]
     | None =>
         result o = Err (PeerError "Request failed with status code 404") ∧
         effects o = [GetEvent eventId]
     end).
Proof.
  intros Hmiss Hrec. cbv zeta.
  rewrite (fetchEventData_run eventId w), Hmiss, Hrec. simpl. intros Hsub.
  rewrite fetchEventData_run. simpl. unfold Cache.get.
  assert (Hkept : ∀ e, kept !! ("event:" +:+ eventId) = Some e →
            e = {| Cache.value := d;
                   Cache.expiresAt := (Resolution.clock w + 300 * 1000)%Z |}).
  { intros e He. pose proof (lookup_weaken _ _ _ _ He Hsub) as He'.
    unfold Cache.set in He'. rewrite lookup_insert_eq in He'. congruence. }
  split.
  - intros [Ht [e He]]. rewrite He, (Hkept e He). unfold Cache.live. simpl.
    by rewrite (proj2 (Z.ltb_lt _ _)) by lia.
  - intros Hgone.
    assert (Hnone : match kept !! ("event:" +:+ eventId) with
                    | Some e => if Cache.live t e then Some (Cache.value e) else None
                    | None => None
                    end = None).
    { destruct (kept !! ("event:" +:+ eventId)) as [e|] eqn:He; [|done].
      destruct Hgone as [Ht|?]; [|done].
      rewrite (Hkept e eq_refl). unfold Cache.live. simpl.
      by rewrite (proj2 (Z.ltb_ge _ _)) by lia. }
    rewrite Hnone. by destruct (records !! eventId).
Qed.

Lemma fetchEventData_stale_for_at_most_300s_witness :
  let w := Scenario.world 1000 "liveness" in
  let filled := final (Resolution.fetchEventData "e1" w) in
  let records : gmap string Doc := {["e1" := Scenario.event_e1 "disputed"]} in
  let later kept := Resolution.set_clock 300999
                      (Resolution.set_cache (λ _, kept)
                         (Resolution.set_eventManager (λ _, records) filled)) in
  Resolution.fetchEventData "e1" (later (Resolution.cache filled)) =
    mkOutcome (Ok (Scenario.event_e1 "liveness")) (later (Resolution.cache filled)) [] ∧
  result (Resolution.fetchEventData "e1" (later ∅)) = Ok (Scenario.event_e1 "disputed").
Proof.
  cbv zeta. split.
  - apply (proj1 (fetchEventData_stale_for_at_most_300s "e1"
                    (Scenario.world 1000 "liveness") (Scenario.event_e1 "liveness")
                    {["e1" := Scenario.event_e1 "disputed"]}
                    (Resolution.cache
                       (final (Resolution.fetchEventData "e1"
                                 (Scenario.world 1000 "liveness"))))
                    300999 eq_refl eq_refl (reflexivity _))).
    split; [reflexivity|by eexists].
  - pose proof (proj2 (fetchEventData_stale_for_at_most_300s "e1"
                         (Scenario.world 1000 "liveness") (Scenario.event_e1 "liveness")
                         {["e1" := Scenario.event_e1 "disputed"]} ∅
                         300999 eq_refl eq_refl (map_empty_subseteq _))
                  (or_intror eq_refl)) as Hupstream.
    exact (proj1 Hupstream).
Defined.

(** X4.  [updateEventState] keeps the cache in step with the write.  When
    the PATCH is accepted for a record the event manager holds, the cached
    copy is dropped, so that the next [fetchEventData] asks the event manager
    and returns the record with the new status.  When the PATCH is rejected
    the call throws the peer's error and nothing has changed: the records and
    the cache, stale copy included, are as before. *)
Theorem updateEventState_invalidates_cache (P : Resolution.Peers)
    (eventId state : string) (w : Resolution.World) :
  let o := Resolution.updateEventState P eventId state w in
  (∀ d, Resolution.patchEvent P eventId state = Reply tt →
        Resolution.eventManager w !! eventId = Some d →
        result o = Ok tt ∧
        result (Resolution.fetchEventData eventId (final o)) = Ok (set_status state d) ∧
        GetEvent eventId ∈ effects (Resolution.fetchEventData eventId (final o))) ∧
  (∀ msg, Resolution.patchEvent P eventId state = Reject msg →
          result o = Err (PeerError msg) ∧ final o = w ∧
          effects o = [PatchEvent eventId state (Resolution.clock w)]).
Proof.
  simpl. rewrite updateEventState_run. split.
  - intros d -> Hd. simpl. split; [done|].
    rewrite fetchEventData_run. simpl.
    unfold Cache.get, Cache.del. rewrite lookup_delete_eq, lookup_alter_eq, Hd. simpl.
    split; [done|]. in_explicit_list.
  - by intros msg ->.
Qed.

Lemma updateEventState_invalidates_cache_witness :
  let P := Scenario.peers [] (Reply tt) in
  let w := final (Resolution.fetchEventData "e1" (Scenario.world 0 "liveness")) in
  result (Resolution.fetchEventData "e1" w) = Ok (Scenario.event_e1 "liveness") ∧
  result (Resolution.fetchEventData "e1"
            (final (Resolution.updateEventState P "e1" "disputed" w))) =
    Ok (Scenario.event_e1 "disputed").
Proof.
  split; [reflexivity|].
  apply (proj1 (updateEventState_invalidates_cache (Scenario.peers [] (Reply tt)) "e1"
                  "disputed"
                  (final (Resolution.fetchEventData "e1" (Scenario.world 0 "liveness"))))
           (Scenario.event_e1 "liveness")); reflexivity.
Defined.

(** ** resolution.service.ts: liveness timers *)

Lemma filter_all {A} (Q : A → Prop) `{∀ x, Decision (Q x)} (l : list A) :
  (∀ x, x ∈ l → Q x) → filter Q l = l.
Proof.
  induction l as [|a l IH]; intros Hall; [done|].
  rewrite filter_cons_True by (apply Hall; left).
  f_equal. apply IH. intros x Hx. apply Hall. by right.
Qed.

Lemma filter_ext_elem {A} (Q1 Q2 : A → Prop) `{∀ x, Decision (Q1 x)}
    `{∀ x, Decision (Q2 x)} (l : list A) :
  (∀ x, x ∈ l → Q1 x ↔ Q2 x) → filter Q1 l = filter Q2 l.
Proof.
  induction l as [|a l IH]; intros Hext; [done|].
  rewrite !filter_cons.
  rewrite IH by (intros x Hx; apply Hext; by right).
  destruct (decide (Q1 a)) as [H1|H1], (decide (Q2 a)) as [H2|H2]; try done;
    exfalso; apply (Hext a) in H1 || apply (Hext a) in H2; try done; left.
Qed.

Lemma same_id_same_job (l : list Bull.Job) (j1 j2 : Bull.Job) :
  NoDup (Bull.job_id <$> l) → j1 ∈ l → j2 ∈ l →
  Bull.job_id j1 = Bull.job_id j2 → j1 = j2.
Proof.
  induction l as [|a l IH]; simpl; [by intros _ ?%elem_of_nil|].
  intros [Hnot Hnd]%NoDup_cons [->|H1]%elem_of_cons [->|H2]%elem_of_cons Hid; [done| | |by apply IH].
  - exfalso. apply Hnot. rewrite Hid. by apply list_elem_of_fmap_2.
  - exfalso. apply Hnot. rewrite <- Hid. by apply list_elem_of_fmap_2.
Qed.

(** The loop of [pauseLivenessMonitoring], exactly: the jobs that go are the
    removable ones that share their id with a scanned job of the proposal. *)
Lemma pause_loop_exact (proposalId : string) (js : list Bull.Job) (w : Resolution.World) :
  let o := for_of js (λ job,
             if bool_decide (Bull.data job !! "proposalId" = Some proposalId)
             then emit (JobRemove "liveness-monitoring" (Bull.job_id job)) >>
                  modify (Resolution.set_livenessQueue (Bull.remove job))
             else ret tt) w in
  Bull.jobs (Resolution.livenessQueue (final o)) =
    filter (λ j', ¬ (Bull.removable j' ∧
                     Exists (λ j, Bull.data j !! "proposalId" = Some proposalId ∧
                                  Bull.job_id j = Bull.job_id j') js))
      (Bull.jobs (Resolution.livenessQueue w)) ∧
  Bull.next_id (Resolution.livenessQueue (final o)) =
    Bull.next_id (Resolution.livenessQueue w) ∧
  Resolution.clock (final o) = Resolution.clock w ∧
  Resolution.cache (final o) = Resolution.cache w ∧
  Resolution.eventManager (final o) = Resolution.eventManager w ∧
  Resolution.settlementQueue (final o) = Resolution.settlementQueue w ∧
  effects o =
    (λ j, JobRemove "liveness-monitoring" (Bull.job_id j)) <$>
      filter (λ j, Bull.data j !! "proposalId" = Some proposalId) js.
Proof.
  revert w. induction js as [|j js IH]; intros w; simpl.
  - repeat split; try done. symmetry. apply filter_all.
    intros x _ [_ HE]. by apply Exists_nil in HE.
  - rewrite bind_run. case_bool_decide as Hj.
    + rewrite bind_run, emit_run, modify_run. simpl.
      specialize (IH (Resolution.set_livenessQueue (Bull.remove j) w)). simpl in IH.
      destruct (for_of js _ _) as [r w' eff]; simpl in *.
      destruct IH as (-> & -> & -> & -> & -> & -> & ->).
      repeat split; try done.
      * rewrite list_filter_filter. apply list_filter_iff. intros x.
        rewrite Exists_cons. split.
        -- intros [H1 H2] [Hrem [[_ Hid]|HE]]; [by apply H2|by apply H1].
        -- intros Hnot. split; intros [? ?]; apply Hnot; split; eauto.
      * by rewrite filter_cons_True by done.
    + rewrite ret_run. specialize (IH w). simpl in IH.
      destruct (for_of js _ _) as [r w' eff]; simpl in *.
      destruct IH as (-> & -> & -> & -> & -> & -> & ->).
      repeat split; try done.
      * apply list_filter_iff. intros x. rewrite Exists_cons. split.
        -- intros Hnot [Hrem [[Hpid _]|HE]]; [done|by apply Hnot].
        -- intros Hnot [? ?]. apply Hnot. split; eauto.
      * by rewrite filter_cons_False by done.
Qed.

Lemma pauseLivenessMonitoring_run (proposalId : string) (w : Resolution.World) :
  let loop := for_of (Bull.getJobs [Bull.delayed; Bull.waiting] (Resolution.livenessQueue w))
                (λ job,
                   if bool_decide (Bull.data job !! "proposalId" = Some proposalId)
                   then emit (JobRemove "liveness-monitoring" (Bull.job_id job)) >>
                        modify (Resolution.set_livenessQueue (Bull.remove job))
                   else ret tt) w in
  Resolution.pauseLivenessMonitoring proposalId w =
    mkOutcome (Ok tt) (final loop)
      (effects loop ++
       [LogInfo ("Paused liveness monitoring for proposal: " +:+ proposalId)]).
Proof.
  simpl. unfold Resolution.pauseLivenessMonitoring. rewrite bind_run, gets_run, bind_run.
  pose proof (pause_loop proposalId
                (Bull.getJobs [Bull.delayed; Bull.waiting] (Resolution.livenessQueue w)) w)
    as (Hr & _). simpl in Hr.
  destruct (for_of _ _ _) as [r w' eff]; simpl in *. subst r. reflexivity.
Qed.

(** X5.  [pauseLivenessMonitoring] cancels the timers of the proposal and
    nothing else.  In a queue whose job ids are distinct, the jobs left are
    exactly those that were not delayed-or-waiting jobs of the proposal, in
    their order; one removal is sent per cancelled job; the next job id, the
    clock, the cache, the event records and the settlement queue are as
    before.  The call always returns. *)
Theorem pauseLivenessMonitoring_removes_only_timers (proposalId : string)
    (w : Resolution.World) :
  NoDup (Bull.job_id <$> Bull.jobs (Resolution.livenessQueue w)) →
  let o := Resolution.pauseLivenessMonitoring proposalId w in
  result o = Ok tt ∧
  Bull.jobs (Resolution.livenessQueue (final o)) =
    filter (λ j, ¬ outstanding proposalId j) (Bull.jobs (Resolution.livenessQueue w)) ∧
  requests (effects o) =
    (λ j, JobRemove "liveness-monitoring" (Bull.job_id j)) <$>
      filter (outstanding proposalId) (Bull.jobs (Resolution.livenessQueue w)) ∧
  Bull.next_id (Resolution.livenessQueue (final o)) =
    Bull.next_id (Resolution.livenessQueue w) ∧
  Resolution.clock (final o) = Resolution.clock w ∧
  Resolution.cache (final o) = Resolution.cache w ∧
  Resolution.eventManager (final o) = Resolution.eventManager w ∧
  Resolution.settlementQueue (final o) = Resolution.settlementQueue w.
Proof.
  intros Hnd. simpl. rewrite pauseLivenessMonitoring_run. simpl.
  pose proof (pause_loop_exact proposalId
                (Bull.getJobs [Bull.delayed; Bull.waiting] (Resolution.livenessQueue w)) w)
    as (Hjobs & Hid & Hc & Hca & Hem & Hsq & Heff). simpl in *.
  repeat split; try done.
  - rewrite Hjobs. apply filter_ext_elem. intros x Hx. unfold outstanding. split.
    + intros Hnot [Hpid Hrem]. apply Hnot. split; [done|].
      apply Exists_exists. exists x. split; [|done].
      unfold Bull.getJobs. by apply list_elem_of_filter.
    + intros Hnot [Hrem HE]. apply Exists_exists in HE as (j & Hin & Hpid & Hid').
      unfold Bull.getJobs in Hin.
      apply list_elem_of_filter in Hin as [_ Hin].
      assert (j = x) as -> by by eapply same_id_same_job. by apply Hnot.
  - rewrite requests_app, Heff. simpl. rewrite app_nil_r.
    unfold Bull.getJobs. rewrite list_filter_filter.
    assert (Hreq : ∀ l : list Bull.Job,
              requests ((λ j, JobRemove "liveness-monitoring" (Bull.job_id j)) <$> l) =
              (λ j, JobRemove "liveness-monitoring" (Bull.job_id j)) <$> l).
    { induction l as [|a l IH]; [done|].
      rewrite fmap_cons, requests_cons. simpl. by rewrite IH. }
    rewrite Hreq. reflexivity.
Qed.

Lemma pauseLivenessMonitoring_removes_only_timers_witness :
  Bull.job_id <$> Bull.jobs (Resolution.livenessQueue
      (final (Resolution.pauseLivenessMonitoring "p1" Scenario.world_with_timers))) = [1].
Proof.
  pose proof (pauseLivenessMonitoring_removes_only_timers "p1" Scenario.world_with_timers)
    as H.
  destruct H as (_ & -> & _); [|reflexivity].
  vm_compute. repeat constructor; [|by intros ?%elem_of_nil].
  intros H. apply elem_of_cons in H as [H|H]; [discriminate|by apply elem_of_nil in H].
Defined.

Lemma pause_loop_nothing (proposalId : string) (js : list Bull.Job)
    (w : Resolution.World) :
  (∀ j, j ∈ js → Bull.data j !! "proposalId" ≠ Some proposalId) →
  for_of js (λ job,
     if bool_decide (Bull.data job !! "proposalId" = Some proposalId)
     then emit (JobRemove "liveness-monitoring" (Bull.job_id job)) >>
          modify (Resolution.set_livenessQueue (Bull.remove job))
     else ret tt) w = mkOutcome (Ok tt) w [].
Proof.
  induction js as [|j js IH]; intros Hno; simpl; [done|].
  rewrite bind_run. rewrite bool_decide_eq_false_2 by (apply Hno; left).
  rewrite ret_run, IH; [done|]. intros j' Hj'. apply Hno. by right.
Qed.

(** X6.  [pauseLivenessMonitoring] is idempotent: a second call right after
    the first finds nothing to cancel, sends no removal and leaves the world
    as the first call left it. *)
Theorem pauseLivenessMonitoring_idempotent (proposalId : string)
    (w : Resolution.World) :
  let o1 := Resolution.pauseLivenessMonitoring proposalId w in
  let o2 := Resolution.pauseLivenessMonitoring proposalId (final o1) in
  result o2 = Ok tt ∧ final o2 = final o1 ∧ requests (effects o2) = [].
Proof.
  simpl. pose proof (pauseLivenessMonitoring_spec proposalId w) as [_ Hgone].
  simpl in Hgone.
  rewrite (pauseLivenessMonitoring_run proposalId (final _)). simpl.
  rewrite pause_loop_nothing; [done|].
  intros j Hin Hpid. unfold Bull.getJobs in Hin.
  apply list_elem_of_filter in Hin as [Hrem Hin]. by apply (Hgone j Hin).
Qed.

Lemma scheduleLivenessMonitoring_run (proposalId : string) (expiry : Z)
    (w : Resolution.World) :
  Resolution.scheduleLivenessMonitoring proposalId expiry w =
    mkOutcome (Ok tt)
      (Resolution.set_livenessQueue
         (Bull.add "check-liveness" {["proposalId" := proposalId]}
            {| Bull.delay := Z.max 0 (expiry - Resolution.clock w); Bull.attempts := 3;
               Bull.backoff_type := "exponential"; Bull.backoff_delay := 5000 |}) w)
      [QueueAdd "liveness-monitoring" "check-liveness" {["proposalId" := proposalId]}
         (Z.max 0 (expiry - Resolution.clock w));
       LogInfo ("Scheduled liveness monitoring for proposal: " +:+ proposalId)].
Proof. unfold Resolution.scheduleLivenessMonitoring. by mstep. Qed.

(** X7.  [scheduleLivenessMonitoring] always enqueues one more timer for the
    proposal, with a delay that is never negative: timers of the same proposal
    already in the queue are neither replaced nor reused, so the number of
    delayed-or-waiting timers of the proposal grows by one with each call.
    Scheduling and then pausing is a round trip: if the queue held no such
    timer of the proposal and the next job id is fresh, the jobs are afterwards
    the jobs from before. *)
Theorem scheduleLivenessMonitoring_adds_one_timer (proposalId : string) (expiry : Z)
    (w : Resolution.World) :
  let before := Bull.jobs (Resolution.livenessQueue w) in
  let scheduled := final (Resolution.scheduleLivenessMonitoring proposalId expiry w) in
  let paused := final (Resolution.pauseLivenessMonitoring proposalId scheduled) in
  (∃ j, Bull.jobs (Resolution.livenessQueue scheduled) = (before ++ [j])%list ∧
        outstanding proposalId j ∧
        Bull.delay (Bull.opts j) = Z.max 0 (expiry - Resolution.clock w) ∧
        (0 ≤ Bull.delay (Bull.opts j))%Z) ∧
  length (filter (outstanding proposalId) (Bull.jobs (Resolution.livenessQueue scheduled))) =
    S (length (filter (outstanding proposalId) before)) ∧
  ((∀ j, j ∈ before → ¬ outstanding proposalId j) →
   (∀ j, j ∈ before → Bull.job_id j ≠ Bull.next_id (Resolution.livenessQueue w)) →
   Bull.jobs (Resolution.livenessQueue paused) = before).
Proof.
  cbv zeta. rewrite scheduleLivenessMonitoring_run. simpl.
  set (new := {| Bull.job_id := Bull.next_id (Resolution.livenessQueue w);
                 Bull.job_name := "check-liveness";
                 Bull.data := {["proposalId" := proposalId]};
                 Bull.opts := _; Bull.job_state := _ |}).
  assert (Hnew : outstanding proposalId new).
  { split; [apply lookup_singleton_eq|]. unfold Bull.removable, new. simpl.
    destruct (0 <? _)%Z; in_explicit_list. }
  split; [|split].
  - exists new. repeat split; try done; try apply Hnew. simpl. lia.
  - rewrite filter_app, length_app, (filter_singleton_True _ new []) by done. simpl. lia.
  - intros Hnone Hfresh. rewrite pauseLivenessMonitoring_run. simpl.
    match goal with |- context [for_of ?js ?body ?w1] =>
      pose proof (pause_loop_exact proposalId js w1) as (Hjobs & _) end.
    simpl in Hjobs. rewrite Hjobs. clear Hjobs.
    rewrite filter_app, (filter_singleton_False _ new []).
    + rewrite app_nil_r. apply filter_all. intros x Hx [Hrem HE].
      apply Exists_exists in HE as (j & Hin & Hpid & Hid).
      unfold Bull.getJobs in Hin. simpl in Hin.
      apply list_elem_of_filter in Hin as [Hrj Hin].
      apply elem_of_app in Hin as [Hin|Hin].
      * by apply (Hnone j Hin).
      * apply list_elem_of_singleton in Hin. subst j. apply (Hfresh x Hx). by rewrite <- Hid.
    + intros Hkeep. apply Hkeep. split; [apply Hnew|].
      apply Exists_exists. exists new. split; [|by split; [apply Hnew|]].
      unfold Bull.getJobs. simpl. apply list_elem_of_filter. split; [apply Hnew|].
      apply elem_of_app. right. by apply list_elem_of_singleton.
Qed.

Lemma scheduleLivenessMonitoring_adds_one_timer_witness :
  Bull.job_id <$> Bull.jobs (Resolution.livenessQueue
    (final (Resolution.pauseLivenessMonitoring "p3"
       (final (Resolution.scheduleLivenessMonitoring "p3" 50 Scenario.world_with_timers))))) =
  [0; 1].
Proof.
  pose proof (scheduleLivenessMonitoring_adds_one_timer "p3" 50 Scenario.world_with_timers)
    as (_ & _ & H).
  rewrite H; [reflexivity| |].
  - intros j Hj [Hpid _]. vm_compute in Hj.
    repeat (apply elem_of_cons in Hj as [->|Hj]; [vm_compute in Hpid; discriminate|]).
    by apply elem_of_nil in Hj.
  - intros j Hj. vm_compute in Hj.
    repeat (apply elem_of_cons in Hj as [->|Hj]; [vm_compute; discriminate|]).
    by apply elem_of_nil in Hj.
Defined.

(** ** resolution.service.ts and blockchain.service.ts: finalization and
       settlement, step by step *)

Lemma blockchain_finalizeProposal_run (P : Resolution.Peers) (proposalId : string)
    (w : Resolution.World) :
  Resolution.blockchain_finalizeProposal P proposalId w =
    match Resolution.proposalManager P with
    | None =>
        mkOutcome (Err (ContractNotLoaded "Proposal contract not loaded")) w
          [LogError ("Failed to finalize proposal: " +:+ "Proposal contract not loaded")]
    | Some contract =>
        match contract proposalId with
        | Reply hash =>
            mkOutcome (Ok hash) w
              [TxFinalizeProposal proposalId;
               LogInfo ("Proposal finalized: " +:+ proposalId +:+ ", tx: " +:+ hash)]
        | Reject msg =>
            mkOutcome (Err (PeerError msg)) w
              [TxFinalizeProposal proposalId;
               LogError ("Failed to finalize proposal: " +:+ msg)]
        end
    end.
Proof.
  unfold Resolution.blockchain_finalizeProposal. rewrite try_catch_run.
  destruct (Resolution.proposalManager P) as [contract|]; [|by mstep].
  mstep. destruct (contract proposalId); by mstep.
Qed.

Lemma scheduleSettlement_run (eventId : string) (w : Resolution.World) :
  Resolution.scheduleSettlement eventId w =
    mkOutcome (Ok tt)
      (Resolution.set_settlementQueue
         (Bull.add "settle-event" {["eventId" := eventId]}
            {| Bull.delay := 60000; Bull.attempts := 5;
               Bull.backoff_type := "exponential"; Bull.backoff_delay := 10000 |}) w)
      [QueueAdd "settlement-processing" "settle-event" {["eventId" := eventId]} 60000;
       LogInfo ("Scheduled settlement for event: " +:+ eventId)].
Proof. unfold Resolution.scheduleSettlement. by mstep. Qed.

Lemma read_only_elem (l : list Effect) (e : Effect) :
  Forall (λ e, is_read e = true) l → e ∈ l → is_read e = true.
Proof. intros Hall Hin. by apply (proj1 (Forall_forall _ _) Hall). Qed.

Lemma requests_read_only (l : list Effect) :
  Forall (λ e, is_read e = true) l →
  ∀ e, e ∈ requests l → is_read e = true.
Proof.
  intros Hall e Hin. unfold requests in Hin.
  apply list_elem_of_filter in Hin as [_ Hin]. by eapply read_only_elem.
Qed.

Ltac not_read H :=
  match type of H with
  | ?e ∈ ?l =>
      let Hr := fresh in
      assert (Hr : is_read e = true) by (eapply read_only_elem; eassumption);
      discriminate Hr
  end.

(** Refutes a membership [H] in an explicit list of effects whose unknown
    parts are reads. *)
Ltac absurd_in H :=
  exfalso;
  repeat first [rewrite elem_of_cons in H | rewrite elem_of_app in H
               | rewrite elem_of_nil in H];
  repeat match type of H with _ ∨ _ => destruct H as [H|H] end;
  try discriminate H; try done; try not_read H.

(** X8.  The steps of [finalizeProposal] come in a fixed order and each
    needs the one before.  When the call returns, the chain accepted the
    finalize transaction and the event manager the PATCH, and the requests
    sent after the fetch are, in order: the dispute query, the transaction,
    the PATCH to "resolved", the cache delete and the enqueueing of one
    settlement job with a delay of 60 000 ms and 5 attempts.  A PATCH is never
    sent unless the chain accepted the transaction, and a settlement job is
    never enqueued unless the whole call returns; when the call throws, the
    settlement queue is as before. *)
Theorem finalizeProposal_steps (P : Resolution.Peers) (proposalId : string)
    (w : Resolution.World) :
  let o := Resolution.finalizeProposal P proposalId w in
  let fetched := Resolution.fetchProposalData P proposalId w in
  (result o = Ok tt →
     ∃ proposal contract hash,
       result fetched = Ok proposal ∧
       Resolution.proposalManager P = Some contract ∧ contract proposalId = Reply hash ∧
       Resolution.patchEvent P (doc_eventId proposal) "resolved" = Reply tt ∧
       requests (effects o) =
         (requests (effects fetched) ++
          [GetDisputes (doc_proposalId proposal);
           TxFinalizeProposal proposalId;
           PatchEvent (doc_eventId proposal) "resolved" (Resolution.clock w);
           CacheDelete ("event:" +:+ doc_eventId proposal);
           QueueAdd "settlement-processing" "settle-event"
             {["eventId" := doc_eventId proposal]} 60000])%list ∧
       Resolution.settlementQueue (final o) =
         Bull.add "settle-event" {["eventId" := doc_eventId proposal]}
           {| Bull.delay := 60000; Bull.attempts := 5;
              Bull.backoff_type := "exponential"; Bull.backoff_delay := 10000 |}
           (Resolution.settlementQueue w)) ∧
  (∀ e st u, PatchEvent e st u ∈ effects o →
     ∃ contract hash,
       Resolution.proposalManager P = Some contract ∧ contract proposalId = Reply hash) ∧
  (∀ q n payload d, QueueAdd q n payload d ∈ effects o → result o = Ok tt) ∧
  (result o ≠ Ok tt →
     Resolution.settlementQueue (final o) = Resolution.settlementQueue w).
Proof.
  cbv zeta. unfold Resolution.finalizeProposal. mstep.
  destruct (fetchProposalData_frame P proposalId w) as (Hclock & _ & _ & Hsq & Hread).
  destruct (Resolution.fetchProposalData P proposalId w) as [[proposal|e] w1 eff1];
    simpl in *.
  2:{ split; [intros [=]|]. split; [intros ? ? ? Hin; absurd_in Hin|].
      split; [intros ? ? ? ? Hin; absurd_in Hin|done]. }
  mstep. rewrite checkFinalizationConditions_run, Hclock.
  destruct (negb _); mstep.
  { split; [intros [=]|]. split; [intros ? ? ? Hin; absurd_in Hin|].
    split; [intros ? ? ? ? Hin; absurd_in Hin|done]. }
  destruct (Resolution.clock w <? _)%Z; mstep.
  { split; [intros [=]|]. split; [intros ? ? ? Hin; absurd_in Hin|].
    split; [intros ? ? ? ? Hin; absurd_in Hin|done]. }
  destruct (Resolution.getDisputes P (doc_proposalId proposal)) as [[|d ds]|msg]; mstep.
  2,3: (split; [intros [=]|]; split; [intros ? ? ? Hin; absurd_in Hin|];
        split; [intros ? ? ? ? Hin; absurd_in Hin|done]).
  rewrite blockchain_finalizeProposal_run.
  destruct (Resolution.proposalManager P) as [contract|]; mstep.
  2:{ split; [intros [=]|]. split; [intros ? ? ? Hin; absurd_in Hin|].
      split; [intros ? ? ? ? Hin; absurd_in Hin|done]. }
  destruct (contract proposalId) as [hash|msg] eqn:Htx; mstep.
  2:{ split; [intros [=]|]. split; [intros ? ? ? Hin; absurd_in Hin|].
      split; [intros ? ? ? ? Hin; absurd_in Hin|done]. }
  rewrite updateEventState_run.
  destruct (Resolution.patchEvent P (doc_eventId proposal) "resolved") as [[]|msg]
    eqn:Hpatch; mstep.
  2:{ split; [intros [=]|]. split; [by eauto|].
      split; [intros ? ? ? ? Hin; absurd_in Hin|done]. }
  rewrite ?scheduleSettlement_run. mstep.
  split; [|split; [by eauto|split; [done|by intros []]]]. intros _. exists proposal, contract, hash.
  repeat split; try done; rewrite ?Hsq, ?Hclock; try done. requests_eq.
Qed.

Lemma finalizeProposal_steps_witness :
  Bull.job_name <$> Bull.jobs (Resolution.settlementQueue
     (final (Resolution.finalizeProposal (Scenario.peers [] (Reply tt)) "p1"
               (Scenario.world 7200001 "liveness")))) = ["settle-event"].
Proof.
  destruct (proj1 (finalizeProposal_steps (Scenario.peers [] (Reply tt)) "p1"
                     (Scenario.world 7200001 "liveness")) eq_refl)
    as (proposal & contract & hash & _ & _ & _ & _ & _ & ->).
  reflexivity.
Defined.

(** What a [settleEvent] that returns has gone through. *)
Lemma settleEvent_returns (P : Resolution.Peers) (eventId : string)
    (w : Resolution.World) :
  let o := Resolution.settleEvent P eventId w in
  result o = Ok tt ↔
  ∃ event contract hash,
    result (Resolution.fetchEventData eventId w) = Ok event ∧
    status event = "resolved" ∧
    Resolution.oracleRegistry P = Some contract ∧ contract eventId = Reply hash ∧
    Resolution.patchEvent P eventId "settled" = Reply tt.
Proof.
  cbv zeta. unfold Resolution.settleEvent. mstep.
  destruct (Resolution.fetchEventData eventId w) as [[event|e] w1 eff1]; simpl.
  2:{ split; [intros [=]|]. by intros (? & ? & ? & [=] & _). }
  destruct (String.eqb_spec (status event) "resolved") as [Hst|Hst]; mstep.
  2:{ split; [intros [=]|]. intros (? & ? & ? & [= <-] & ? & _). done. }
  rewrite blockchain_settleEvent_run.
  destruct (Resolution.oracleRegistry P) as [contract|]; mstep.
  2:{ split; [intros [=]|]. by intros (? & ? & ? & _ & _ & [=] & _). }
  destruct (contract eventId) as [hash|msg] eqn:Htx; mstep.
  2:{ split; [intros [=]|]. intros (? & c & ? & _ & _ & [= <-] & Hc & _). congruence. }
  rewrite distributeRewards_run.
  destruct (Resolution.postDistribute P eventId) as [[]|msg]; mstep;
    rewrite updateEventState_run;
    (destruct (Resolution.patchEvent P eventId "settled") as [[]|msg'] eqn:Hpatch; mstep;
     [|split; [intros [=]|]; by intros (? & ? & ? & _ & _ & _ & _ & [=])]);
    match goal with |- context [Resolution.cleanupEventData eventId ?w2] =>
      pose proof (cleanupEventData_run eventId w2) as [Hr _];
      destruct (Resolution.cleanupEventData eventId w2) as [[[]|e] w3 eff3];
        simpl in Hr; [|discriminate] end;
    simpl; (split; [|done]); intros _; by exists event, contract, hash.
Qed.

Lemma settleEvent_records (P : Resolution.Peers) (eventId : string)
    (w : Resolution.World) :
  let o := Resolution.settleEvent P eventId w in
  result o = Ok tt →
  Resolution.eventManager (final o) =
    alter (set_status "settled") eventId (Resolution.eventManager w) ∧
  Resolution.livenessQueue (final o) = Resolution.livenessQueue w ∧
  Resolution.settlementQueue (final o) = Resolution.settlementQueue w.
Proof.
  cbv zeta. unfold Resolution.settleEvent. mstep.
  destruct (fetchEventData_frame eventId w) as (_ & Hem & Hlq & Hsq & _ & _).
  destruct (Resolution.fetchEventData eventId w) as [[event|e] w1 eff1]; simpl in *;
    [|intros [=]].
  destruct (negb _); mstep; [intros [=]|].
  destruct (Resolution.blockchain_settleEvent P eventId w1) as [[hash|e] w2 eff2] eqn:Htx;
    mstep; [|intros [=]].
  assert (w2 = w1) as ->.
  { rewrite blockchain_settleEvent_run in Htx.
    destruct (Resolution.oracleRegistry P) as [c|]; [|discriminate].
    destruct (c eventId); by injection Htx. }
  rewrite distributeRewards_run.
  destruct (Resolution.postDistribute P eventId) as [[]|msg]; mstep;
    rewrite updateEventState_run;
    (destruct (Resolution.patchEvent P eventId "settled") as [[]|msg']; mstep;
     [|intros [=]]);
    match goal with |- context [Resolution.cleanupEventData eventId ?w2] =>
      pose proof (cleanupEventData_frame eventId w2) as (_ & Hem' & Hlq' & Hsq');
      destruct (Resolution.cleanupEventData eventId w2) as [[[]|e] w3 eff3];
        simpl in *; [|intros [=]] end;
    intros _; by rewrite Hem', Hlq', Hsq', Hem, Hlq, Hsq.
Qed.

(** X9.  [settleEvent] returns exactly when the fetched event is in state
    "resolved", the oracle registry is loaded and accepts the settle
    transaction, and the event manager accepts the PATCH to "settled"; the
    answer of the reward service plays no part.  The reward POST and the
    PATCH are sent only after the chain has accepted the transaction.  When
    the call returns, the only change to the event records is the status of
    this event, and the two queues are untouched. *)
Theorem settleEvent_steps (P : Resolution.Peers) (eventId : string)
    (w : Resolution.World) :
  let o := Resolution.settleEvent P eventId w in
  (result o = Ok tt ↔
     ∃ event contract hash,
       result (Resolution.fetchEventData eventId w) = Ok event ∧
       status event = "resolved" ∧
       Resolution.oracleRegistry P = Some contract ∧ contract eventId = Reply hash ∧
       Resolution.patchEvent P eventId "settled" = Reply tt) ∧
  (∀ id, PostDistribute id ∈ effects o →
     ∃ contract hash,
       Resolution.oracleRegistry P = Some contract ∧ contract eventId = Reply hash) ∧
  (∀ e st u, PatchEvent e st u ∈ effects o →
     ∃ contract hash,
       Resolution.oracleRegistry P = Some contract ∧ contract eventId = Reply hash) ∧
  (result o = Ok tt →
     Resolution.eventManager (final o) =
       alter (set_status "settled") eventId (Resolution.eventManager w) ∧
     Resolution.livenessQueue (final o) = Resolution.livenessQueue w ∧
     Resolution.settlementQueue (final o) = Resolution.settlementQueue w).
Proof.
  cbv zeta. split; [apply settleEvent_returns|].
  split; [|split; [|apply settleEvent_records]].
  all: unfold Resolution.settleEvent; mstep;
    destruct (fetchEventData_frame eventId w) as (_ & _ & _ & _ & _ & Hread);
    (destruct (Resolution.fetchEventData eventId w) as [[event|e] w1 eff1]; simpl in *;
     [|intros; absurd_in H]);
    (destruct (negb _); mstep; [intros; absurd_in H|]);
    rewrite blockchain_settleEvent_run;
    (destruct (Resolution.oracleRegistry P) as [contract|]; mstep;
     [|intros; absurd_in H]);
    (destruct (contract eventId) as [hash|msg] eqn:Htx; mstep;
     [|intros; absurd_in H]);
    by eauto.
Qed.

Lemma settleEvent_steps_witness :
  status <$> Resolution.eventManager
    (final (Resolution.settleEvent (Scenario.peers [] (Reject "503")) "e1"
              (Scenario.world 0 "resolved"))) !! "e1" = Some "settled".
Proof.
  destruct (proj2 (proj2 (proj2 (settleEvent_steps (Scenario.peers [] (Reject "503")) "e1"
                                   (Scenario.world 0 "resolved")))) eq_refl)
    as (-> & _).
  reflexivity.
Defined.

(** X10.  A settlement is not done twice.  Once [settleEvent] has returned
    for an event the event manager holds, a further [settleEvent] for the same
    event, at any later time, finds the cache purged, reads the record in
    state "settled" from the event manager and throws, without sending a
    second settle transaction or a second reward POST. *)
Theorem settleEvent_not_repeatable (P : Resolution.Peers) (eventId : string)
    (w : Resolution.World) (now : Z) :
  result (Resolution.settleEvent P eventId w) = Ok tt →
  is_Some (Resolution.eventManager w !! eventId) →
  let again := Resolution.settleEvent P eventId
                 (Resolution.set_clock now (final (Resolution.settleEvent P eventId w))) in
  result again = Err EventNotResolved ∧
  requests (effects again) = [GetEvent eventId; CacheSet ("event:" +:+ eventId)].
Proof.
  intros Hok [d Hd]. cbv zeta.
  pose proof (settleEvent_purges_event_key P eventId w now Hok) as Hmiss. simpl in Hmiss.
  destruct (settleEvent_records P eventId w Hok) as (Hem & _ & _).
  unfold Resolution.settleEvent at 1 3. mstep.
  rewrite !fetchEventData_run. simpl. rewrite Hmiss, Hem, lookup_alter_eq, Hd. simpl.
  split; reflexivity.
Qed.

Lemma settleEvent_not_repeatable_witness :
  let P := Scenario.peers [] (Reply tt) in
  result (Resolution.settleEvent P "e1"
            (Resolution.set_clock 90000
               (final (Resolution.settleEvent P "e1" (Scenario.world 0 "resolved"))))) =
    Err EventNotResolved.
Proof.
  apply (settleEvent_not_repeatable (Scenario.peers [] (Reply tt)) "e1"
           (Scenario.world 0 "resolved") 90000).
  - reflexivity.
  - eexists. reflexivity.
Defined.

(** ** resolution.service.ts: dispute handling *)

(** X11.  [handleDisputeDetected] returns exactly when the proposal can be
    fetched and the event manager accepts the PATCH of its event to
    "disputed": neither the notification nor the cancellation of the timers
    can make it fail.  When it throws, it has sent no notification and
    removed no job, and the liveness queue is as before: the timers of the
    proposal stay armed. *)
Theorem handleDisputeDetected_result (P : Resolution.Peers)
    (proposalId disputeData : string) (w : Resolution.World) :
  let o := Resolution.handleDisputeDetected P proposalId disputeData w in
  (result o = Ok tt ↔
     ∃ proposal,
       result (Resolution.fetchProposalData P proposalId w) = Ok proposal ∧
       Resolution.patchEvent P (doc_eventId proposal) "disputed" = Reply tt) ∧
  (result o ≠ Ok tt →
     Resolution.livenessQueue (final o) = Resolution.livenessQueue w ∧
     (∀ p d, PostNotifyArbitrators p d ∉ effects o) ∧
     (∀ q i, JobRemove q i ∉ effects o)).
Proof.
  cbv zeta. unfold Resolution.handleDisputeDetected. mstep.
  destruct (fetchProposalData_frame P proposalId w) as (_ & _ & Hlq & _ & Hread).
  destruct (Resolution.fetchProposalData P proposalId w) as [[proposal|e] w1 eff1];
    simpl in *.
  2:{ split; [split; [intros [=]|by intros (? & [=] & _)]|].
      intros _. split; [done|]. split; intros ? ? Hin; absurd_in Hin. }
  mstep. rewrite updateEventState_run.
  destruct (Resolution.patchEvent P (doc_eventId proposal) "disputed") as [[]|msg]
    eqn:Hpatch; mstep.
  2:{ split; [split; [intros [=]|intros (? & [= <-] & ?); congruence]|].
      intros _. split; [done|]. split; intros ? ? Hin; absurd_in Hin. }
  rewrite notifyArbitrators_run.
  destruct (Resolution.postNotifyArbitrators P proposalId disputeData) as [[]|msg]; mstep;
    rewrite pauseLivenessMonitoring_run; simpl;
    (split; [split; [intros _; by exists proposal|done]|by intros []]).
Qed.

Lemma handleDisputeDetected_result_witness :
  let P := Scenario.peers [] (Reject "503") in
  result (Resolution.handleDisputeDetected P "p1" "evidence" Scenario.world_with_timers) =
    Ok tt ∧
  Resolution.livenessQueue
    (final (Resolution.handleDisputeDetected P "p9" "evidence" Scenario.world_with_timers)) =
  Resolution.livenessQueue Scenario.world_with_timers.
Proof.
  split.
  - apply (proj1 (handleDisputeDetected_result (Scenario.peers [] (Reject "503")) "p1"
                    "evidence" Scenario.world_with_timers)).
    exists Scenario.proposal_p1. split; reflexivity.
  - apply (proj2 (handleDisputeDetected_result (Scenario.peers [] (Reject "503")) "p9"
                    "evidence" Scenario.world_with_timers)).
    discriminate.
Defined.

(** ** Proposal submission *)

Lemma blockchain_submitProposal_run (P : Resolution.Peers) (ethers_id : string → string)
    (submitProposalTx : Submission.SubmitCall → Response string) (eventId : string)
    (proposalData : Submission.ProposalData) (w : Resolution.World) :
  Submission.blockchain_submitProposal P ethers_id submitProposalTx eventId proposalData w =
    match Resolution.proposalManager P with
    | None =>
        mkOutcome (Err (ContractNotLoaded "Proposal contract not loaded")) w
          [LogError ("Failed to submit proposal: " +:+ "Proposal contract not loaded")]
    | Some _ =>
        match submitProposalTx
                (submit_call ethers_id eventId proposalData (Resolution.clock w)) with
        | Reply hash =>
            mkOutcome
              (Ok {| Submission.proposalId :=
                       ethers_id (eventId +:+ "_" +:+ pretty (Resolution.clock w));
                     Submission.transactionHash := hash;
                     Submission.sub_livenessExpiry := (Resolution.clock w + 7200000)%Z |})
              w
              [TxSubmitProposal
                 (ethers_id (eventId +:+ "_" +:+ pretty (Resolution.clock w)))
                 (ethers_id eventId);
               LogInfo ("Proposal submitted: " +:+
                        ethers_id (eventId +:+ "_" +:+ pretty (Resolution.clock w)) +:+
                        ", tx: " +:+ hash)]
        | Reject msg =>
            mkOutcome (Err (PeerError msg)) w
              [TxSubmitProposal
                 (ethers_id (eventId +:+ "_" +:+ pretty (Resolution.clock w)))
                 (ethers_id eventId);
               LogError ("Failed to submit proposal: " +:+ msg)]
        end
    end.
Proof.
  unfold Submission.blockchain_submitProposal, submit_call. rewrite try_catch_run.
  destruct (Resolution.proposalManager P) as [contract|]; [|by mstep].
  mstep. destruct (submitProposalTx _); by mstep.
Qed.

(** X12.  [initiateProposal], step by step.  If the proposal manager is not
    loaded, the call throws, having sent nothing and changed nothing.  If it
    is loaded, the one transaction [submitProposal] is sent to it, for the new
    proposal id, the hash of the event id and the clock reading.  If that
    transaction is rejected the call throws, having sent nothing else and
    changed nothing.  If it is accepted, one liveness timer is enqueued for
    the new proposal id with a delay of 7 200 000 ms, and then the PATCH to
    "liveness" is sent; the call returns the proposal id when the PATCH is
    accepted.  When the PATCH is rejected the call throws, and the timer
    stays in the queue: nothing is rolled back. *)
Theorem initiateProposal_steps (P : Resolution.Peers) (ethers_id : string → string)
    (submitProposalTx : Submission.SubmitCall → Response string) (eventId : string)
    (proposalData : Submission.ProposalData) (w : Resolution.World) :
  let o := Submission.initiateProposal P ethers_id submitProposalTx eventId proposalData w in
  let pid := ethers_id (eventId +:+ "_" +:+ pretty (Resolution.clock w)) in
  let call := submit_call ethers_id eventId proposalData (Resolution.clock w) in
  let submit := TxSubmitProposal pid (ethers_id eventId) in
  let enqueue :=
    QueueAdd "liveness-monitoring" "check-liveness" {["proposalId" := pid]} 7200000 in
  let patch := PatchEvent eventId "liveness" (Resolution.clock w) in
  (Resolution.proposalManager P = None →
     result o = Err (ContractNotLoaded "Proposal contract not loaded") ∧
     final o = w ∧ requests (effects o) = []) ∧
  (∀ msg, is_Some (Resolution.proposalManager P) → submitProposalTx call = Reject msg →
     result o = Err (PeerError msg) ∧ final o = w ∧ requests (effects o) = [submit]) ∧
  (∀ hash, is_Some (Resolution.proposalManager P) → submitProposalTx call = Reply hash →
     Resolution.livenessQueue (final o) =
       Bull.add "check-liveness" {["proposalId" := pid]}
         {| Bull.delay := 7200000; Bull.attempts := 3;
            Bull.backoff_type := "exponential"; Bull.backoff_delay := 5000 |}
         (Resolution.livenessQueue w) ∧
     match Resolution.patchEvent P eventId "liveness" with
     | Reply _ =>
         result o = Ok pid ∧
         requests (effects o) =
           [submit; enqueue; patch; CacheDelete ("event:" +:+ eventId)]
     | Reject msg =>
         result o = Err (PeerError msg) ∧
         requests (effects o) = [submit; enqueue; patch]
     end).
Proof.
  cbv zeta. unfold Submission.initiateProposal, Submission.submitProposalToChain. mstep.
  rewrite blockchain_submitProposal_run. split; [|split].
  - intros Hnone. rewrite Hnone. by mstep.
  - intros msg [contract Hpm] Hrej. rewrite Hpm, Hrej. by mstep.
  - intros hash [contract Hpm] Htx. rewrite Hpm, Htx. mstep.
    rewrite ?scheduleLivenessMonitoring_run. mstep. rewrite updateEventState_run.
    replace (Resolution.clock w + 7200000 - Resolution.clock w)%Z with 7200000%Z by lia.
    destruct (Resolution.patchEvent P eventId "liveness") as [[]|msg]; mstep; done.
Qed.

Lemma initiateProposal_steps_witness :
  let P := Scenario.peers [] (Reply tt) in
  let data := Submission.mkProposalData "yes" 95 "ipfs://evidence" 1000 in
  let w := Scenario.world 500 "proposing" in
  Bull.job_state <$>
    Bull.jobs (Resolution.livenessQueue
                 (final (Submission.initiateProposal P (λ s, "0x" +:+ s)
                           (λ _, Reply "0xa1") "e1" data w))) = [Bull.delayed] ∧
  requests (effects (Submission.initiateProposal P (λ s, "0x" +:+ s)
                       (λ _, Reject "insufficient bond") "e1" data w)) =
    [TxSubmitProposal "0xe1_500" "0xe1"].
Proof.
  cbv zeta. split.
  - destruct (proj2 (proj2 (initiateProposal_steps (Scenario.peers [] (Reply tt))
                       (λ s, "0x" +:+ s) (λ _, Reply "0xa1") "e1"
                       (Submission.mkProposalData "yes" 95 "ipfs://evidence" 1000)
                       (Scenario.world 500 "proposing"))) "0xa1")
      as [-> _]; [by eexists|reflexivity|reflexivity].
  - destruct (proj1 (proj2 (initiateProposal_steps (Scenario.peers [] (Reply tt))
                       (λ s, "0x" +:+ s) (λ _, Reject "insufficient bond") "e1"
                       (Submission.mkProposalData "yes" 95 "ipfs://evidence" 1000)
                       (Scenario.world 500 "proposing"))) "insufficient bond")
      as (_ & _ & ->); [by eexists|reflexivity|reflexivity].
Defined.

(** ** The queue workers *)

Lemma requests_nil : requests [] = [].
Proof. reflexivity. Qed.

Ltac requests_norm :=
  repeat (rewrite ?requests_app, ?requests_cons, ?requests_nil, ?app_nil_r; simpl);
  try reflexivity.

(** X13.  The two job handlers add log lines and nothing else: a liveness
    job ends as [finalizeProposal] ends and a settlement job as [settleEvent]
    ends, with the same result (an error is thrown again, so that the queue
    sees the job fail), the same final world and the same requests. *)
Theorem handlers_pass_through (P : Resolution.Peers) (id : string)
    (w : Resolution.World) :
  (result (Processors.handleLivenessCheck P id w) =
     result (Resolution.finalizeProposal P id w) ∧
   final (Processors.handleLivenessCheck P id w) =
     final (Resolution.finalizeProposal P id w) ∧
   requests (effects (Processors.handleLivenessCheck P id w)) =
     requests (effects (Resolution.finalizeProposal P id w))) ∧
  (result (Processors.handleSettlement P id w) =
     result (Resolution.settleEvent P id w) ∧
   final (Processors.handleSettlement P id w) =
     final (Resolution.settleEvent P id w) ∧
   requests (effects (Processors.handleSettlement P id w)) =
     requests (effects (Resolution.settleEvent P id w))).
Proof.
  split.
  - unfold Processors.handleLivenessCheck. mstep.
    destruct (Resolution.finalizeProposal P id w) as [[[]|e] w1 eff1]; mstep;
      repeat split; requests_norm.
  - unfold Processors.handleSettlement. mstep.
    destruct (Resolution.settleEvent P id w) as [[[]|e] w1 eff1]; mstep;
      repeat split; requests_norm.
Qed.

(** ** indexer.service.ts *)



(** ** resolution.service.ts: what the cleanup leaves in the cache *)

Local Transparent String.append.

Lemma glob_star (p s : string) :
  Cache.glob (String "*" p) s =
    Cache.glob p s ||
    match s with
    | EmptyString => false
    | String _ s' => Cache.glob (String "*" p) s'
    end.
Proof. destruct s; reflexivity. Qed.

Lemma glob_char (c : ascii) (p s : string) :
  Ascii.eqb c "*" = false →
  Cache.glob (String c p) s =
    match s with
    | EmptyString => false
    | String d s' => Ascii.eqb c d && Cache.glob p s'
    end.
Proof. intros H. cbn [Cache.glob]. by rewrite H. Qed.

Lemma glob_same_char (c : ascii) (p s : string) :
  Ascii.eqb c "*" = false →
  Cache.glob (String c p) (String c s) = Cache.glob p s.
Proof. intros H. by rewrite glob_char, Ascii.eqb_refl. Qed.

Lemma star_needs_colon (eventId s : string) :
  has_colon s = false → Cache.glob (String "*" (String ":" eventId)) s = false.
Proof.
  induction s as [|d s IH]; intros Hno; rewrite glob_star, glob_char by reflexivity.
  - reflexivity.
  - cbn [has_colon] in Hno. apply orb_false_iff in Hno as [Hd Hs].
    by rewrite Ascii.eqb_sym, Hd, IH.
Qed.

Lemma cleanup_pattern_needs_colon (eventId proposalId : string) :
  has_colon proposalId = false →
  Cache.glob ("proposal:*:" +:+ eventId) ("proposal:" +:+ proposalId) = false.
Proof.
  intros Hno. cbv [String.append].
  rewrite !glob_same_char by reflexivity. by apply star_needs_colon.
Qed.

Lemma event_key_is_no_proposal_key (eventId proposalId : string) :
  "proposal:" +:+ proposalId ≠ "event:" +:+ eventId.
Proof. cbv [String.append]. discriminate. Qed.

Local Opaque String.append.

Lemma delete_loop_keeps (ks : list string) (w : Resolution.World) (k : string) :
  k ∉ ks →
  Resolution.cache (final (for_of ks Resolution.cacheService_delete w)) !! k =
    Resolution.cache w !! k.
Proof.
  revert w. induction ks as [|k' ks IH]; intros w Hk; simpl; [done|].
  apply not_elem_of_cons in Hk as [Hne Hk].
  unfold Resolution.cacheService_delete at 1. mstep.
  specialize (IH (Resolution.set_cache (Cache.del k') w) Hk). simpl in IH.
  destruct (for_of ks _ _) as [r w' eff]; simpl in *.
  rewrite IH. unfold Cache.del. by apply lookup_delete_ne.
Qed.

Lemma keys_match (now : Z) (pattern : string) (c : gmap string Cache.Entry) (k : string) :
  k ∈ Cache.keys now pattern c → Cache.glob pattern k = true.
Proof.
  unfold Cache.keys. intros ([k' v] & -> & Hin)%list_elem_of_fmap.
  by apply list_elem_of_filter in Hin as [[? _] _].
Qed.

Lemma cleanupEventData_keeps (eventId : string) (w : Resolution.World) (k : string) :
  k ≠ "event:" +:+ eventId →
  Cache.glob ("proposal:*:" +:+ eventId) k = false →
  Resolution.cache (final (Resolution.cleanupEventData eventId w)) !! k =
    Resolution.cache w !! k.
Proof.
  intros Hne Hglob.
  unfold Resolution.cleanupEventData, Resolution.cacheService_delete at 1,
    Resolution.cacheService_keys.
  mstep.
  match goal with |- context [for_of ?ks _ ?w1] =>
    pose proof (delete_loop_keeps ks w1 k) as Hloop end.
  simpl in Hloop. destruct (for_of _ _ _) as [[[]|e] w' eff]; mstep; simpl in *;
    (rewrite Hloop;
     [unfold Cache.del; by apply lookup_delete_ne
     |intros Hin%keys_match; congruence]).
Qed.

(** X16.  [settleEvent] never removes a cached proposal whose id has no
    colon in it (an id made by [ethers.id] has none): whichever way the call
    ends, the entry under proposal:{proposalId} is what it was.  The cleanup
    only deletes the key of the event and the keys that match
    proposal:*:{eventId}, and no key written by [fetchProposalData] for such
    an id matches. *)
Theorem settleEvent_keeps_proposal_entries (P : Resolution.Peers)
    (eventId proposalId : string) (w : Resolution.World) :
  has_colon proposalId = false →
  Resolution.cache (final (Resolution.settleEvent P eventId w))
    !! ("proposal:" +:+ proposalId) =
  Resolution.cache w !! ("proposal:" +:+ proposalId).
Proof.
  intros Hno.
  pose proof (event_key_is_no_proposal_key eventId proposalId) as Hne.
  pose proof (cleanup_pattern_needs_colon eventId proposalId Hno) as Hglob.
  assert (Hfetch : Resolution.cache (final (Resolution.fetchEventData eventId w))
                     !! ("proposal:" +:+ proposalId) =
                   Resolution.cache w !! ("proposal:" +:+ proposalId)).
  { rewrite fetchEventData_run. destruct (Cache.get _ _ _); [done|].
    destruct (Resolution.eventManager w !! eventId); [|done]. simpl.
    unfold Cache.set. by apply lookup_insert_ne. }
  unfold Resolution.settleEvent. mstep.
  destruct (Resolution.fetchEventData eventId w) as [[event|e] w1 eff1]; simpl in *;
    [|done].
  destruct (negb _); mstep; [done|].
  rewrite blockchain_settleEvent_run.
  destruct (Resolution.oracleRegistry P) as [contract|]; mstep; [|done].
  destruct (contract eventId) as [hash|msg]; mstep; [|done].
  rewrite distributeRewards_run.
  destruct (Resolution.postDistribute P eventId) as [[]|msg]; mstep;
    rewrite updateEventState_run;
    (destruct (Resolution.patchEvent P eventId "settled") as [[]|msg']; mstep; [|done]);
    match goal with |- context [Resolution.cleanupEventData eventId ?w2] =>
      pose proof (cleanupEventData_keeps eventId w2 _ Hne Hglob) as Hkeep;
      destruct (Resolution.cleanupEventData eventId w2) as [[[]|e] w3 eff3] end;
    simpl in *; rewrite Hkeep; unfold Cache.del; by rewrite lookup_delete_ne.
Qed.

Lemma settleEvent_keeps_proposal_entries_witness :
  let P := Scenario.peers [] (Reply tt) in
  let w := final (Resolution.fetchProposalData P "0x9f3a" (Scenario.world 0 "resolved")) in
  Resolution.cache (final (Resolution.settleEvent P "e1" w)) !! ("proposal:" +:+ "0x9f3a") =
  Resolution.cache w !! ("proposal:" +:+ "0x9f3a").
Proof.
  apply (settleEvent_keeps_proposal_entries (Scenario.peers [] (Reply tt)) "e1" "0x9f3a").
  reflexivity.
Defined.
